(** * Portfolio optimizer: the engine, the price provider and the REST interface

    A shallow embedding of the class [PortfolioOptimizer] of
    [backend/optimizer.py] and of the pandas, numpy and scipy operations it
    calls, of the data cleaning of [backend/data_service.py] and of the
    handlers of [backend/api.py], followed by their properties.

    Numbers.  The engine computes on IEEE binary64 values.  They are modelled
    as extended reals with a not-a-number value: arithmetic on finite values
    is exact (rounding and overflow are not modelled, and the two zeros are
    identified), while the special values follow the IEEE rules the code
    relies on: division by zero gives an infinity or NaN, the square root of
    a negative number is NaN, and every comparison with NaN is false. *)

From Stdlib Require Import Reals Lra ZArith.
From stdpp Require Import gmap strings list fin_maps sorting.

Local Open Scope string_scope.

(** ** IEEE values *)

Module Float64.

Inductive float64 : Type :=
| Finite (r : R)
| PosInf
| NegInf
| NaN.

Inductive sign : Type := Neg | Zero | Pos.

Definition Rsign (r : R) : sign :=
match total_order_T r 0 with
| inleft (left _) => Neg
| inleft (right _) => Zero
| inright _ => Pos
end.

Definition sign_mul (s t : sign) : sign :=
match s, t with
| Zero, _ | _, Zero => Zero
| Pos, Pos | Neg, Neg => Pos
| Pos, Neg | Neg, Pos => Neg
end.

Definition fsign (x : float64) : option sign :=
match x with
| Finite r => Some (Rsign r)
| PosInf => Some Pos
| NegInf => Some Neg
| NaN => None
end.

(** An infinity of the given sign; the sign [Zero] stands for the invalid
  operations (0 * inf, 0 / 0), whose result is NaN. *)
Definition signed_inf (s : sign) : float64 :=
match s with
| Pos => PosInf
| Neg => NegInf
| Zero => NaN
end.

Definition is_nan (x : float64) : bool :=
match x with NaN => true | _ => false end.

Definition is_finite (x : float64) : bool :=
match x with Finite _ => true | _ => false end.

Definition fopp (x : float64) : float64 :=
match x with
| Finite r => Finite (- r)
| PosInf => NegInf
| NegInf => PosInf
| NaN => NaN
end.

Definition fadd (x y : float64) : float64 :=
match x, y with
| NaN, _ | _, NaN => NaN
| Finite a, Finite b => Finite (a + b)
| PosInf, NegInf | NegInf, PosInf => NaN
| PosInf, _ | _, PosInf => PosInf
| NegInf, _ | _, NegInf => NegInf
end.

Definition fsub (x y : float64) : float64 := fadd x (fopp y).

Definition fmul (x y : float64) : float64 :=
match x, y with
| Finite a, Finite b => Finite (a * b)
| _, _ =>
    match fsign x, fsign y with
    | Some s, Some t => signed_inf (sign_mul s t)
    | _, _ => NaN
    end
end.

Definition fdiv (x y : float64) : float64 :=
match x, y with
| NaN, _ | _, NaN => NaN
| Finite a, Finite b =>
    match Rsign b with
    | Zero => signed_inf (Rsign a)
    | _ => Finite (a / b)
    end
| Finite _, _ => Finite 0
| _, Finite b =>
    match fsign x with
    | Some s => signed_inf (sign_mul s (match Rsign b with Neg => Neg | _ => Pos end))
    | None => NaN
    end
| _, _ => NaN
end.

(** [np.sqrt]: NaN on a negative argument (numpy warns, it does not raise). *)
Definition fsqrt (x : float64) : float64 :=
match x with
| Finite r => match Rsign r with Neg => NaN | _ => Finite (sqrt r) end
| PosInf => PosInf
| NegInf => NaN
| NaN => NaN
end.

Definition Rltb (a b : R) : bool := if Rlt_dec a b then true else false.
Definition Rleb (a b : R) : bool := if Rle_dec a b then true else false.

(** [x < y]; false as soon as one side is NaN. *)
Definition fltb (x y : float64) : bool :=
match x, y with
| NaN, _ | _, NaN => false
| Finite a, Finite b => Rltb a b
| NegInf, NegInf | PosInf, _ | _, NegInf => false
| NegInf, _ | _, PosInf => true
end.

(** [x <= y]; false as soon as one side is NaN. *)
Definition fleb (x y : float64) : bool :=
match x, y with
| NaN, _ | _, NaN => false
| Finite a, Finite b => Rleb a b
| NegInf, _ | _, PosInf => true
| PosInf, _ | _, NegInf => false
end.

(** [x > y] *)
Definition fgtb (x y : float64) : bool := fltb y x.

Definition feqb (x y : float64) : bool :=
match x, y with
| Finite a, Finite b => if Req_dec_T a b then true else false
| PosInf, PosInf | NegInf, NegInf => true
| _, _ => false
end.

Definition of_nat (n : nat) : float64 := Finite (INR n).
Definition of_Z (z : Z) : float64 := Finite (IZR z).

End Float64.

Export Float64.

Declare Scope float_scope.
Delimit Scope float_scope with fl.
Infix "+" := fadd : float_scope.
Infix "-" := fsub : float_scope.
Infix "*" := fmul : float_scope.
Infix "/" := fdiv : float_scope.
Infix "<?" := fltb : float_scope.
Infix "<=?" := fleb : float_scope.
Infix ">?" := fgtb : float_scope.
Notation "0" := (Finite 0) : float_scope.
Notation "1" := (Finite 1) : float_scope.

(** ** Python exceptions *)

(** An exception object: its class name, [str(e)], and the exception that was
    being handled when it was raised ([__context__]). *)
Inductive exn : Type :=
  | Exception (cls : string) (msg : string)
  | Chained (cls : string) (msg : string) (context : exn).

Definition exn_cls (e : exn) : string :=
  match e with Exception c _ | Chained c _ _ => c end.
Definition exn_str (e : exn) : string :=
  match e with Exception _ m | Chained _ m _ => m end.

Inductive result (A : Type) : Type :=
  | Ok (a : A)
  | Raise (e : exn).
Arguments Ok {A} a.
Arguments Raise {A} e.

Global Instance result_ret : MRet result := @Ok.
Global Instance result_bind : MBind result := λ A B f m,
  match m with
  | Ok a => f a
  | Raise e => Raise e
  end.

Definition is_ok {A} (r : result A) : bool :=
  match r with Ok _ => true | Raise _ => false end.

(** ** numpy arrays and pandas frames *)

Abbreviation vector := (list float64).
Abbreviation matrix := (list (list float64)).

(** [np.sum] *)
Definition fsum (l : vector) : float64 := foldr fadd 0%fl l.

(** [np.dot] of two one-dimensional arrays; numpy raises when the shapes
    differ. *)
Definition np_dot (a b : vector) : result float64 :=
  if decide (length a = length b)
  then Ok (fsum (zip_with fmul a b))
  else Raise (Exception "ValueError" "shapes not aligned").

(** [np.dot] of a two-dimensional array and a one-dimensional one. *)
Fixpoint np_matvec (m : matrix) (v : vector) : result vector :=
  match m with
  | [] => Ok []
  | row :: rest =>
      d ← np_dot row v;
      ds ← np_matvec rest v;
      Ok (d :: ds)
  end.

(** [np.min] and [np.max]: they raise on an empty array and propagate NaN. *)
Definition fmin (x y : float64) : float64 :=
  if is_nan x || is_nan y then NaN else if (y <? x)%fl then y else x.
Definition fmax (x y : float64) : float64 :=
  if is_nan x || is_nan y then NaN else if (x <? y)%fl then y else x.

Definition np_min (a : vector) : result float64 :=
  match a with
  | [] => Raise (Exception "ValueError"
            "zero-size array to reduction operation minimum which has no identity")
  | x :: rest => Ok (foldl fmin x rest)
  end.

Definition np_max (a : vector) : result float64 :=
  match a with
  | [] => Raise (Exception "ValueError"
            "zero-size array to reduction operation maximum which has no identity")
  | x :: rest => Ok (foldl fmax x rest)
  end.

(** A pandas frame of prices: the column labels and the rows, oldest first.
    Every row of a frame has one cell per column. *)
Record DataFrame : Type := {
  columns : list string;
  values : matrix
}.

Definition rectangular (df : DataFrame) : Prop :=
  Forall (λ row, length row = length (columns df)) (values df).

(** The cells of column [j], top to bottom. *)
Definition column (j : nat) (rows : matrix) : vector :=
  map (λ row, nth j row NaN) rows.

Definition frame_columns (df : DataFrame) : list vector :=
  map (λ j, column j (values df)) (seq 0 (length (columns df))).

(** [df.pct_change()]: every row divided by the row before it, minus 1; the
    first row, which has no predecessor, is NaN.  (The price provider has
    filled the missing values of the frame, so nothing is filled here.) *)
Fixpoint pct_rows (prev : vector) (rows : matrix) : matrix :=
  match rows with
  | [] => []
  | row :: rest => zip_with (λ c p, (c / p - 1)%fl) row prev :: pct_rows row rest
  end.

Definition pct_change (df : DataFrame) : DataFrame :=
  {| columns := columns df;
     values := match values df with
               | [] => []
               | first :: rest => map (λ _, NaN) first :: pct_rows first rest
               end |}.

(** [df.dropna()]: the rows without any NaN cell. *)
Definition dropna (df : DataFrame) : DataFrame :=
  {| columns := columns df;
     values := List.filter (forallb (λ v, negb (is_nan v))) (values df) |}.

(** [Series.mean] on a column without NaN. *)
Definition series_mean (v : vector) : float64 :=
  (fsum v / of_nat (length v))%fl.

(** [df.mean()]: one mean per column. *)
Definition DataFrame_mean (df : DataFrame) : vector :=
  map series_mean (frame_columns df).

(** [np.cov(X, ddof=1)], the routine behind [df.cov()] on a frame without
    NaN: rows of [X] are variables, [nobs] the number of observations.  The
    normalisation is [N - ddof], replaced by 0 when it is not positive. *)
Definition np_cov (X : list vector) (nobs : nat) : matrix :=
  let fact := if (nobs <=? 1)%nat then 0%fl else of_nat (nobs - 1) in
  let centered := map (λ v, let avg := series_mean v in map (λ a, (a - avg)%fl) v) X in
  map (λ xi, map (λ xj, (fsum (zip_with fmul xi xj) * (1 / fact))%fl) centered) centered.

Definition DataFrame_cov (df : DataFrame) : matrix :=
  np_cov (frame_columns df) (length (values df)).

(** [np.linspace(start, stop, num)], as numpy computes it: the grid
    [arange(num) * step + start] with the last sample set to [stop]. *)
Definition np_linspace (start stop : float64) (num : Z) : result vector :=
  if (num <? 0)%Z
  then Raise (Exception "ValueError" "Number of samples must be non-negative.")
  else
    let n := Z.to_nat num in
    let div := (n - 1)%nat in
    let delta := (stop - start)%fl in
    let y := map of_nat (seq 0 n) in
    let y :=
      if (0 <? div)%nat then
        let step := (delta / of_nat div)%fl in
        if feqb step 0%fl
        then map (λ v, (v / of_nat div * delta)%fl) y
        else map (λ v, (v * step)%fl) y
      else map (λ v, (v * delta)%fl) y in
    let y := map (λ v, (v + start)%fl) y in
    Ok (if (1 <? n)%nat then <[(n - 1)%nat := stop]> y else y).

(** Indexing a one-dimensional array. *)
Definition np_index (a : vector) (i : nat) : result float64 :=
  match a !! i with
  | Some v => Ok v
  | None => Raise (Exception "IndexError" "index is out of bounds")
  end.

(** Indexing a two-dimensional array, [m[i, j]]. *)
Definition np_index2 (m : matrix) (i j : nat) : result float64 :=
  match m !! i with
  | Some row => np_index row j
  | None => Raise (Exception "IndexError" "index is out of bounds")
  end.

(** Python's [a / n] for a float and an int. *)
Definition py_truediv (a : float64) (n : nat) : result float64 :=
  if decide (n = 0%nat)
  then Raise (Exception "ZeroDivisionError" "float division by zero")
  else Ok (a / of_nat n)%fl.

(** ** The interface of [scipy.optimize.minimize] *)

Record constraint : Type := {
  ctype : string;
  cfun : vector → result float64
}.

Module MinimizeArgs.
Record t : Type := {
  objective : vector → result float64;
  x0 : vector;
  method : string;
  bounds : list (float64 * float64);
  constraints : list constraint;
  disp : bool;
  maxiter : Z
}.
End MinimizeArgs.

Module OptimizeResult.
Record t : Type := {
  x : vector;
  success : bool;
  message : option string
}.
End OptimizeResult.

(** ** Computations that may raise and that call the solver

    The state is the list of the calls made to the numerical routine so far,
    oldest first. *)

Definition solver_log : Type := list MinimizeArgs.t.

Definition M (A : Type) : Type := solver_log → result A * solver_log.

Global Instance M_ret : MRet M := λ A a log, (Ok a, log).
Global Instance M_bind : MBind M := λ A B f m log,
  match m log with
  | (Ok a, log') => f a log'
  | (Raise e, log') => (Raise e, log')
  end.

Definition lift {A} (r : result A) : M A := λ log, (r, log).
Definition raise {A} (e : exn) : M A := lift (Raise e).

(** [try: body except Exception as e: handler e] *)
Definition try_except {A} (body : M A) (handler : exn → M A) : M A := λ log,
  match body log with
  | (Raise e, log') => handler e log'
  | returned => returned
  end.

(** ** The values the engine returns *)

Module Portfolio.
Record t : Type := {
  weights : gmap string float64;
  exp_return : float64;
  exp_risk : float64;
  sharpe : float64;
  success : bool;
  message : string
}.
End Portfolio.

Record point : Type := {
  risk : float64;
  return_ : float64
}.

Module AssetPerformance.
Record t : Type := {
  ticker : string;
  risk : float64;
  return_ : float64;
  sharpe : float64
}.
End AssetPerformance.

(** A dict comprehension over pairs: a later pair with the same key
    replaces an earlier one. *)
Definition dict_of (kvs : list (string * float64)) : gmap string float64 :=
  foldl (λ d kv, <[kv.1 := kv.2]> d) ∅ kvs.

(** [sum(d.values())] *)
Definition dict_sum (d : gmap string float64) : float64 :=
  map_fold (λ _ v acc, (v + acc)%fl) 0%fl d.

(** [points.sort(key=lambda p: p["risk"])]: a stable sort that compares keys
    with [<].  On keys without NaN every stable comparison sort returns the
    same list; it is written here as an insertion sort. *)
Fixpoint insert_by_risk (p : point) (sorted : list point) : list point :=
  match sorted with
  | [] => [p]
  | q :: rest =>
      if (risk q <? risk p)%fl then q :: insert_by_risk p rest
      else p :: q :: rest
  end.

Definition sort_by_risk (points : list point) : list point :=
  foldr insert_by_risk [] points.

(** The two errors the engine raises itself; the spec calls them
    UnknownMethodError and OptimizationFailedError.  Both are [ValueError]s
    in the code; the second is raised while [cause] is being handled, so
    Python records [cause] as its context. *)
Definition UnknownMethodError (method : string) : exn :=
  Exception "ValueError" ("Unknown optimization method: " +:+ method).

Definition OptimizationFailedError (cause : exn) : exn :=
  Chained "ValueError" ("Portfolio optimization failed: " +:+ exn_str cause) cause.

(** ** The class [PortfolioOptimizer]

    The methods follow the source statement by statement; the calls to the
    logger, which have no effect on the results, are left out. *)

Section PortfolioOptimizer.

(** [self.risk_free_rate] *)
Variable risk_free_rate : float64.

(** [scipy.optimize.minimize]: it returns a result object or raises. *)
Variable minimize : MinimizeArgs.t → result OptimizeResult.t.

Definition call_minimize (args : MinimizeArgs.t) : M OptimizeResult.t :=
  λ log, (minimize args, (log ++ [args])%list).

Definition calculate_returns_and_covariance (price_data : DataFrame)
  : vector * matrix :=
  let daily_returns := dropna (pct_change price_data) in
  let expected_returns :=
    map (λ m, (m * Finite 252)%fl) (DataFrame_mean daily_returns) in
  let covariance_matrix :=
    map (map (λ c, (c * Finite 252)%fl)) (DataFrame_cov daily_returns) in
  (expected_returns, covariance_matrix).

Definition portfolio_performance (weights expected_returns : vector)
    (covariance_matrix : matrix) : result (float64 * float64 * float64) :=
  portfolio_return ← np_dot weights expected_returns;
  cw ← np_matvec covariance_matrix weights;
  portfolio_variance ← np_dot weights cw;
  let portfolio_volatility := fsqrt portfolio_variance in
  let sharpe_ratio :=
    if (portfolio_volatility >? 0)%fl
    then ((portfolio_return - risk_free_rate) / portfolio_volatility)%fl
    else 0%fl in
  Ok (portfolio_return, portfolio_volatility, sharpe_ratio).

(** The constraint [np.sum(x) - 1 = 0]. *)
Definition weights_sum_to_one : constraint :=
  {| ctype := "eq"; cfun := λ x, Ok (fsum x - 1)%fl |}.

(** The objective [np.dot(weights.T, np.dot(covariance_matrix, weights))]. *)
Definition variance_objective (covariance_matrix : matrix)
  : vector → result float64 :=
  λ weights, cw ← np_matvec covariance_matrix weights; np_dot weights cw.

(** The objective of the mode [max_sharpe]: the negated Sharpe ratio. *)
Definition neg_sharpe_objective (expected_returns : vector)
    (covariance_matrix : matrix) : vector → result float64 :=
  λ weights,
    perf ← portfolio_performance weights expected_returns covariance_matrix;
    Ok (fopp perf.2).

Definition optimize_portfolio (price_data : DataFrame) (method : string)
  : M Portfolio.t :=
  let tickers := columns price_data in
  let n_assets := length tickers in
  let '(expected_returns, covariance_matrix) :=
    calculate_returns_and_covariance price_data in
  w ← lift (py_truediv 1%fl n_assets);
  let initial_weights := replicate n_assets w in
  let constraints := [weights_sum_to_one] in
  let bounds := replicate n_assets (0%fl, 1%fl) in
  objective ←
    (if String.eqb method "min_variance"
     then mret (variance_objective covariance_matrix)
     else if String.eqb method "max_sharpe"
     then mret (neg_sharpe_objective expected_returns covariance_matrix)
     else raise (UnknownMethodError method));
  try_except
    (result ← call_minimize
       {| MinimizeArgs.objective := objective;
          MinimizeArgs.x0 := initial_weights;
          MinimizeArgs.method := "SLSQP";
          MinimizeArgs.bounds := bounds;
          MinimizeArgs.constraints := constraints;
          MinimizeArgs.disp := false;
          MinimizeArgs.maxiter := 1000 |};
     let optimal_weights := OptimizeResult.x result in
     perf ← lift (portfolio_performance optimal_weights expected_returns
                    covariance_matrix);
     let '(exp_return, exp_risk, sharpe) := perf in
     let weights_dict := dict_of (zip tickers optimal_weights) in
     mret {| Portfolio.weights := weights_dict;
             Portfolio.exp_return := exp_return;
             Portfolio.exp_risk := exp_risk;
             Portfolio.sharpe := sharpe;
             Portfolio.success := OptimizeResult.success result;
             Portfolio.message :=
               default "Optimization completed" (OptimizeResult.message result) |})
    (λ e, raise (OptimizationFailedError e)).

(** The constraint [np.dot(x, expected_returns) - target_return = 0]. *)
Definition hits_target_return (expected_returns : vector)
    (target_return : float64) : constraint :=
  {| ctype := "eq";
     cfun := λ x, d ← np_dot x expected_returns; Ok (d - target_return)%fl |}.

(** One iteration of the loop over the target returns. *)
Definition frontier_point (n_assets : nat) (expected_returns : vector)
    (covariance_matrix : matrix) (target_return : float64)
    (frontier_points : list point) : M (list point) :=
  try_except
    (let objective := variance_objective covariance_matrix in
     let constraints :=
       [weights_sum_to_one; hits_target_return expected_returns target_return] in
     let bounds := replicate n_assets (0%fl, 1%fl) in
     w ← lift (py_truediv 1%fl n_assets);
     let initial_weights := replicate n_assets w in
     result ← call_minimize
       {| MinimizeArgs.objective := objective;
          MinimizeArgs.x0 := initial_weights;
          MinimizeArgs.method := "SLSQP";
          MinimizeArgs.bounds := bounds;
          MinimizeArgs.constraints := constraints;
          MinimizeArgs.disp := false;
          MinimizeArgs.maxiter := 1000 |};
     if OptimizeResult.success result then
       let optimal_weights := OptimizeResult.x result in
       perf ← lift (portfolio_performance optimal_weights expected_returns
                      covariance_matrix);
       let '(portfolio_return, portfolio_risk, _) := perf in
       mret (frontier_points ++
               [{| risk := portfolio_risk; return_ := portfolio_return |}])%list
     else mret frontier_points)
    (λ e, mret frontier_points).

Fixpoint frontier_loop (n_assets : nat) (expected_returns : vector)
    (covariance_matrix : matrix) (target_returns : vector)
    (frontier_points : list point) : M (list point) :=
  match target_returns with
  | [] => mret frontier_points
  | target_return :: rest =>
      frontier_points ← frontier_point n_assets expected_returns
                          covariance_matrix target_return frontier_points;
      frontier_loop n_assets expected_returns covariance_matrix rest
        frontier_points
  end.

Definition generate_efficient_frontier (price_data : DataFrame) (n_points : Z)
  : M (list point) :=
  let tickers := columns price_data in
  let n_assets := length tickers in
  let '(expected_returns, covariance_matrix) :=
    calculate_returns_and_covariance price_data in
  min_return ← lift (np_min expected_returns);
  max_return ← lift (np_max expected_returns);
  target_returns ← lift (np_linspace min_return max_return n_points);
  frontier_points ← frontier_loop n_assets expected_returns covariance_matrix
                      target_returns [];
  mret (sort_by_risk frontier_points).

Fixpoint asset_performance_loop (i : nat) (tickers : list string)
    (expected_returns : vector) (covariance_matrix : matrix)
  : result (list AssetPerformance.t) :=
  match tickers with
  | [] => Ok []
  | ticker :: rest =>
      variance ← np_index2 covariance_matrix i i;
      let asset_risk := fsqrt variance in
      asset_return ← np_index expected_returns i;
      let asset_sharpe :=
        if (asset_risk >? 0)%fl
        then ((asset_return - risk_free_rate) / asset_risk)%fl
        else 0%fl in
      others ← asset_performance_loop (S i) rest expected_returns
                 covariance_matrix;
      Ok ({| AssetPerformance.ticker := ticker;
             AssetPerformance.risk := asset_risk;
             AssetPerformance.return_ := asset_return;
             AssetPerformance.sharpe := asset_sharpe |} :: others)
  end.

Definition get_individual_asset_performance (price_data : DataFrame)
  : result (list AssetPerformance.t) :=
  let '(expected_returns, covariance_matrix) :=
    calculate_returns_and_covariance price_data in
  asset_performance_loop 0 (columns price_data) expected_returns
    covariance_matrix.

End PortfolioOptimizer.

(** The arguments [optimize_portfolio] passes to the numerical routine. *)
Definition optimize_portfolio_call (risk_free_rate : float64)
    (price_data : DataFrame) (method : string) : MinimizeArgs.t :=
  let n_assets := length (columns price_data) in
  let stats := calculate_returns_and_covariance price_data in
  {| MinimizeArgs.objective :=
       if String.eqb method "min_variance"
       then variance_objective stats.2
       else neg_sharpe_objective risk_free_rate stats.1 stats.2;
     MinimizeArgs.x0 := replicate n_assets (1 / of_nat n_assets)%fl;
     MinimizeArgs.method := "SLSQP";
     MinimizeArgs.bounds := replicate n_assets (0%fl, 1%fl);
     MinimizeArgs.constraints := [weights_sum_to_one];
     MinimizeArgs.disp := false;
     MinimizeArgs.maxiter := 1000 |}.

(** The arguments [generate_efficient_frontier] passes to the numerical
    routine for one target return. *)
Definition frontier_call (n_assets : nat) (expected_returns : vector)
    (covariance_matrix : matrix) (target_return : float64) : MinimizeArgs.t :=
  {| MinimizeArgs.objective := variance_objective covariance_matrix;
     MinimizeArgs.x0 := replicate n_assets (1 / of_nat n_assets)%fl;
     MinimizeArgs.method := "SLSQP";
     MinimizeArgs.bounds := replicate n_assets (0%fl, 1%fl);
     MinimizeArgs.constraints :=
       [weights_sum_to_one; hits_target_return expected_returns target_return];
     MinimizeArgs.disp := false;
     MinimizeArgs.maxiter := 1000 |}.

(** A sequence of frontier points in ascending order of risk:
    [risk[i] <= risk[i+1]] for every index. *)
Definition ascending_by_risk (pts : list point) : Prop :=
  ∀ i p q, pts !! i = Some p → pts !! S i = Some q →
           (risk p <=? risk q)%fl = true.

(** ** Feasibility of a solver result

    The tolerance within which a successful solve meets the bounds and the
    equality constraints. *)
Definition tolerance : R := 1e-6.

Definition within_bounds (b : float64 * float64) (v : float64) : Prop :=
  ∃ lo hi r, b = (Finite lo, Finite hi) ∧ v = Finite r
             ∧ (lo - tolerance <= r <= hi + tolerance)%R.

Definition satisfies (c : constraint) (x : vector) : Prop :=
  ∃ v, cfun c x = Ok (Finite v) ∧ (Rabs v <= tolerance)%R.

Definition feasible (args : MinimizeArgs.t) (x : vector) : Prop :=
  Forall2 within_bounds (MinimizeArgs.bounds args) x
  ∧ Forall (λ c, satisfies c x) (MinimizeArgs.constraints args).

(** ** The statistics estimator as the specification words it

    Per asset, the per-period fractional price changes
    [row[t] / row[t-1] - 1] for every row but the first; the expected return
    is their arithmetic mean times 252 and the covariance matrix is their
    sample covariance times 252. *)

Module Spec.

(** [rows[t][j]] *)
Definition cell (rows : matrix) (t j : nat) : float64 :=
  nth j (nth t rows []) NaN.

Definition changes (rows : matrix) (j : nat) : vector :=
  map (λ t, (cell rows t j / cell rows (t - 1) j - 1)%fl)
      (seq 1 (length rows - 1)).

Definition mean (v : vector) : float64 :=
  (fsum v / of_nat (length v))%fl.

(** The sample covariance: the sum of the products of the deviations from
    the means, divided by the number of observations minus one. *)
Definition sample_covariance (x y : vector) : float64 :=
  (fsum (zip_with (λ a b, (a - mean x) * (b - mean y)) x y)
   / (of_nat (length x) - 1))%fl.

Definition expected_returns (df : DataFrame) : vector :=
  map (λ j, (mean (changes (values df) j) * Finite 252)%fl)
      (seq 0 (length (columns df))).

Definition covariance_matrix (df : DataFrame) : matrix :=
  map (λ i,
         map (λ j, (sample_covariance (changes (values df) i)
                      (changes (values df) j) * Finite 252)%fl)
             (seq 0 (length (columns df))))
      (seq 0 (length (columns df))).

End Spec.

(** A price is a positive real number. *)
Definition positive (v : float64) : Prop := ∃ r, v = Finite r ∧ (0 < r)%R.

(** A price table as the price provider delivers it: every row has one
    price per asset. *)
Definition clean (df : DataFrame) : Prop :=
  rectangular df ∧ Forall (Forall positive) (values df).



(** ** Sample inputs *)

(** [pd.DataFrame()] *)
Definition empty_frame : DataFrame := {| columns := []; values := [] |}.

(** Two assets over three days. *)
Definition three_days : DataFrame :=
  {| columns := ["AAPL"; "MSFT"];
     values := [[Finite 100; Finite 50];
                [Finite 110; Finite 55];
                [Finite 121; Finite 44]] |}.

(** Two assets over two days: a single return observation. *)
Definition two_days : DataFrame :=
  {| columns := ["AAPL"; "MSFT"];
     values := [[Finite 1; Finite 1];
                [Finite 2; Finite 3]] |}.

(** Two assets on a single day. *)
Definition one_day : DataFrame :=
  {| columns := ["AAPL"; "MSFT"];
     values := [[Finite 100; Finite 50]] |}.

(** One asset over three days. *)
Definition single_asset : DataFrame :=
  {| columns := ["AAPL"];
     values := [[Finite 1]; [Finite 2]; [Finite 4]] |}.

(** A solver that reports convergence at its initial guess. *)
Definition solver_at_guess (args : MinimizeArgs.t) : result OptimizeResult.t :=
  Ok {| OptimizeResult.x := MinimizeArgs.x0 args;
        OptimizeResult.success := true;
        OptimizeResult.message := Some "Optimization terminated successfully" |}.

(** A solver that stops at its initial guess without converging. *)
Definition solver_stalled (args : MinimizeArgs.t) : result OptimizeResult.t :=
  Ok {| OptimizeResult.x := MinimizeArgs.x0 args;
        OptimizeResult.success := false;
        OptimizeResult.message := Some "Iteration limit reached" |}.

(** A solver that raises. *)
Definition solver_raising (args : MinimizeArgs.t) : result OptimizeResult.t :=
  Raise (Exception "LinAlgError" "Singular matrix").

(** A solver for the frontier problems of two assets.  The two equality
    constraints leave a single portfolio; the solver reads the distance of
    either asset's return from the target off the second constraint and
    returns that portfolio. *)
Definition solver_two_assets (args : MinimizeArgs.t) : result OptimizeResult.t :=
  match MinimizeArgs.x0 args, MinimizeArgs.constraints args with
  | [_; _], [_; target_constraint] =>
      match cfun target_constraint [1%fl; 0%fl],
            cfun target_constraint [0%fl; 1%fl] with
      | Ok (Finite a), Ok (Finite b) =>
          if Req_dec_T a b then solver_stalled args
          else
            Ok {| OptimizeResult.x := [Finite (b / (b - a)); Finite (1 - b / (b - a))];
                  OptimizeResult.success := true;
                  OptimizeResult.message :=
                    Some "Optimization terminated successfully" |}
      | _, _ => solver_raising args
      end
  | _, _ => solver_raising args
  end.

(** A solver that raises when the target return is negative, stops without
    converging when it is above 10, and solves the problem otherwise. *)
Definition solver_flaky (args : MinimizeArgs.t) : result OptimizeResult.t :=
  match MinimizeArgs.constraints args with
  | [_; target_constraint] =>
      match cfun target_constraint [0%fl; 0%fl] with
      | Ok (Finite v) =>
          if Rlt_dec 0 v then solver_raising args
          else if Rlt_dec v (-10) then solver_stalled args
          else solver_two_assets args
      | _ => solver_raising args
      end
  | _ => solver_raising args
  end.

(** ** Vocabulary of the statements *)

(** An [n] by [n] matrix. *)
Definition square (n : nat) (m : matrix) : Prop :=
  length m = n ∧ Forall (λ row, length row = n) m.

(** The quadratic form [weights^T . covariance_matrix . weights] on arrays
    of matching shapes. *)
Definition quadratic_form (covariance_matrix : matrix) (weights : vector) : float64 :=
  fsum (zip_with fmul weights
          (map (λ row, fsum (zip_with fmul row weights)) covariance_matrix)).

(** The Sharpe ratio with the guard on the risk, as both
    [portfolio_performance] and [get_individual_asset_performance] write it. *)
Definition guarded_sharpe (risk_free_rate ret risk : float64) : float64 :=
  if (risk >? 0)%fl then ((ret - risk_free_rate) / risk)%fl else 0%fl.

(** The risk with the variance clamped at zero, as the spec words it. *)
Definition clamped_risk (variance : float64) : float64 :=
  fsqrt (fmax variance 0%fl).

(** [risk p <= risk q] *)
Definition risk_le (p q : point) : Prop := (risk p <=? risk q)%fl = true.

(** *** Assumptions on the numerical routine *)

(** The routine returns a vector of the shape of its initial guess. *)
Definition keeps_shape (minimize : MinimizeArgs.t → result OptimizeResult.t) : Prop :=
  ∀ args r, minimize args = Ok r →
    length (OptimizeResult.x r) = length (MinimizeArgs.x0 args).

(** When the routine reports success on this call, the vector it returns
    meets the bounds and the equality constraints it was given, within the
    tolerance. *)
Definition feasible_on_success (minimize : MinimizeArgs.t → result OptimizeResult.t)
    (call : MinimizeArgs.t) : Prop :=
  ∀ r, minimize call = Ok r → OptimizeResult.success r = true →
       feasible call (OptimizeResult.x r).

(** The routine returns vectors of numbers on this call. *)
Definition finite_result (minimize : MinimizeArgs.t → result OptimizeResult.t)
    (call : MinimizeArgs.t) : Prop :=
  ∀ r, minimize call = Ok r → Forall (λ w, is_finite w) (OptimizeResult.x r).

(** The call returned and reported convergence. *)
Definition converged (minimize : MinimizeArgs.t → result OptimizeResult.t)
    (args : MinimizeArgs.t) : bool :=
  match minimize args with
  | Ok r => OptimizeResult.success r
  | Raise _ => false
  end.

(** What one call to the routine adds to the frontier: one point when the
    call returns, reports success and returns a vector the evaluator
    accepts; nothing otherwise. *)
Definition frontier_point_of (risk_free_rate : float64)
    (minimize : MinimizeArgs.t → result OptimizeResult.t)
    (er : vector) (cov : matrix) (call : MinimizeArgs.t) : list point :=
  match minimize call with
  | Ok r =>
      if OptimizeResult.success r then
        match portfolio_performance risk_free_rate (OptimizeResult.x r) er cov with
        | Ok (portfolio_return, portfolio_risk, _) =>
            [{| risk := portfolio_risk; return_ := portfolio_return |}]
        | Raise _ => []
        end
      else []
  | Raise _ => []
  end.

(** *** Vectors of real numbers *)


Definition Rsum (l : list R) : R := foldr Rplus 0%R l.

Definition Rmean (xs : list R) : R := (Rsum xs / INR (length xs))%R.

Definition Rdot (a b : list R) : R := Rsum (zip_with Rmult a b).


(** The sum of the products of the deviations from the means. *)
Definition Rcov_sum (xs ys : list R) : R :=
  Rsum (zip_with (λ a b, ((a + - Rmean xs) * (b + - Rmean ys))%R) xs ys).

(** Unfolds the operations of the computation type [M]. *)
Ltac run_M :=
  unfold try_except, call_minimize, lift, raise;
  unfold mbind, mret, M_bind, M_ret;
  cbv beta iota zeta.

(** ** The price provider of [backend/data_service.py]

    The provider downloads the close prices of the requested tickers and
    cleans them before they reach the engine.  A price that is missing is a
    NaN cell of the frame. *)

(** [str.upper] on ASCII text. *)
Definition upper_ascii (c : Ascii.ascii) : Ascii.ascii :=
  let n := Ascii.nat_of_ascii c in
  if (97 <=? n)%nat && (n <=? 122)%nat then Ascii.ascii_of_nat (n - 32) else c.

Fixpoint upper (s : string) : string :=
  match s with
  | EmptyString => EmptyString
  | String c rest => String (upper_ascii c) (upper rest)
  end.

(** [df.empty]: an axis of the frame has length 0. *)
Definition DataFrame_empty (df : DataFrame) : bool :=
  bool_decide (columns df = []) || bool_decide (values df = []).

(** [a <= b] on strings: the order of the code points, position by
    position. *)
Definition str_le (a b : string) : Prop := String.leb a b = true.

Global Instance str_le_dec (a b : string) : Decision (str_le a b) :=
  decide (String.leb a b = true).

(** [sorted(tickers)]: the ascending arrangement of the tickers, which is
    the same for every sorting procedure since no two different strings are
    equal in the order. *)
Definition sorted (tickers : list string) : list string :=
  merge_sort str_le tickers.

Module DataService.

(** [df.fillna(method='ffill')]: a missing cell takes the value of the cell
    above it, the rows above being filled already. *)
Fixpoint ffill_rows (prev : vector) (rows : matrix) : matrix :=
  match rows with
  | [] => []
  | row :: rest =>
      let filled := zip_with (λ v p, if is_nan v then p else v) row prev in
      filled :: ffill_rows filled rest
  end.

Definition ffill (df : DataFrame) : DataFrame :=
  {| columns := columns df;
     values := match values df with
               | [] => []
               | first :: rest => first :: ffill_rows first rest
               end |}.

(** [df.fillna(method='bfill')]: a missing cell takes the value of the cell
    below it, the rows below being filled already. *)
Fixpoint bfill_rows (rows : matrix) : matrix :=
  match rows with
  | [] => []
  | row :: rest =>
      match bfill_rows rest with
      | [] => [row]
      | next :: below =>
          zip_with (λ v n, if is_nan v then n else v) row next :: next :: below
      end
  end.

Definition bfill (df : DataFrame) : DataFrame :=
  {| columns := columns df; values := bfill_rows (values df) |}.

(** [df.dropna(how='all')]: the rows that hold at least one value. *)
Definition dropna_all (df : DataFrame) : DataFrame :=
  {| columns := columns df;
     values := List.filter (existsb (λ v, negb (is_nan v))) (values df) |}.

(** [Series.count]: the number of values of a column. *)
Definition count (col : vector) : nat :=
  length (List.filter (λ v, negb (is_nan v)) col).

(** [df.dropna(thresh=thresh, axis=1)]: the columns that hold at least
    [thresh] values. *)
Definition dropna_thresh (thresh : float64) (df : DataFrame) : DataFrame :=
  let keep :=
    List.filter (λ j, (thresh <=? of_nat (count (column j (values df))))%fl)
      (seq 0 (length (columns df))) in
  {| columns := map (λ j, nth j (columns df) "") keep;
     values := map (λ row, map (λ j, nth j row NaN) keep) (values df) |}.

Definition _clean_data (data : DataFrame) : DataFrame :=
  let data_cleaned := ffill data in
  let data_cleaned := dropna_all data_cleaned in
  let threshold := (of_nat (length (values data_cleaned)) * Finite 0.5)%fl in
  let data_cleaned := dropna_thresh threshold data_cleaned in
  let data_cleaned := bfill data_cleaned in
  data_cleaned.

(** The name of the cache file of a request, as [get_stock_data] builds it
    once the dates are known. *)
Definition cache_filename (tickers : list string)
    (start_date end_date interval : string) : string :=
  String.concat "_" (sorted tickers) +:+ "_" +:+ start_date +:+ "_"
    +:+ end_date +:+ "_" +:+ interval +:+ ".csv".

(** [validate_tickers], over the answers of [yf.Ticker(ticker).history]: a
    ticker whose lookup raises, or has no recent data, is left out. *)
Fixpoint validate_tickers (history : string → result DataFrame)
    (tickers : list string) : list string :=
  match tickers with
  | [] => []
  | ticker :: rest =>
      match history ticker with
      | Ok hist =>
          if negb (DataFrame_empty hist) && (0 <? length (values hist))%nat
          then upper ticker :: validate_tickers history rest
          else validate_tickers history rest
      | Raise _ => validate_tickers history rest
      end
  end.

End DataService.

(** The frame has no missing cell. *)
Definition no_missing (df : DataFrame) : Prop :=
  Forall (Forall (λ v, is_nan v = false)) (values df).

(** Every cell of the frame is missing. *)
Definition all_missing (df : DataFrame) : Prop :=
  Forall (Forall (λ v, is_nan v = true)) (values df).

(** Every cell is missing or satisfies [P]. *)
Definition cells (P : float64 → Prop) (rows : matrix) : Prop :=
  Forall (Forall (λ v, is_nan v = true ∨ P v)) rows.

(** Column [j] of the row holds a value. *)
Definition valid_at (j : nat) (row : vector) : Prop :=
  is_nan (nth j row NaN) = false.

(** Every column that holds a value in [a] holds one in [b]. *)
Definition le_valid (a b : vector) : Prop := ∀ j, valid_at j a → valid_at j b.

(** Three assets over four days, with gaps; the third is listed on the last
    day only. *)
Definition gappy : DataFrame :=
  {| columns := ["AAPL"; "MSFT"; "TSLA"];
     values := [[NaN; Finite 50; NaN];
                [Finite 100; NaN; NaN];
                [NaN; Finite 52; NaN];
                [Finite 102; Finite 53; Finite 7]] |}.

(** ** The REST interface of [backend/api.py]

    The handlers follow the source statement by statement; the calls to the
    logger are left out, and the response models are records of the values
    they are built from. *)

Module Api.

(** [optimizer = PortfolioOptimizer()] *)
Module optimizer.
Definition risk_free_rate : float64 := 0%fl.
Definition optimize_portfolio := optimize_portfolio risk_free_rate.
Definition generate_efficient_frontier := generate_efficient_frontier risk_free_rate.
Definition get_individual_asset_performance :=
  get_individual_asset_performance risk_free_rate.
End optimizer.

(** What a handler of the interface can raise: a Python exception, or
    FastAPI's [HTTPException], which derives from [Exception] and not from
    [ValueError]. *)
Inductive raised : Type :=
  | Python (e : exn)
  | HTTPException (status_code : Z) (detail : string).

Inductive outcome (A : Type) : Type :=
  | Returned (a : A)
  | Raised (e : raised).
Arguments Returned {A} a.
Arguments Raised {A} e.

(** A handler that calls the engine: the calls to the numerical routine are
    logged as in [M]. *)
Definition H (A : Type) : Type := solver_log → outcome A * solver_log.

(** [try: body  except ValueError as e: ...  except Exception as e: ...];
    [derives_from_ValueError] tells whether the class of that name derives
    from [ValueError]. *)
Definition handle {A} (derives_from_ValueError : string → bool)
    (body : outcome A) (on_value_error : exn → outcome A)
    (on_exception : raised → outcome A) : outcome A :=
  match body with
  | Returned a => Returned a
  | Raised (Python e) =>
      if derives_from_ValueError (exn_cls e) then on_value_error e
      else on_exception (Python e)
  | Raised e => on_exception e
  end.

Module OptimizationRequest.
Record t : Type := {
  tickers : list string;
  method : string;
  start_date : option string;
  end_date : option string
}.
End OptimizationRequest.

Module OptimizationResponse.
Record t : Type := {
  weights : gmap string float64;
  exp_return : float64;
  exp_risk : float64;
  sharpe : float64;
  success : bool;
  message : string;
  individual_assets : option (list AssetPerformance.t)
}.
End OptimizationResponse.

Module FrontierResponse.
Record t : Type := {
  points : list point;
  individual_assets : option (list AssetPerformance.t)
}.
End FrontierResponse.

(** The validator of the field [method] of a request. *)
Definition validate_method (v : string) : result string :=
  if bool_decide (v ∈ ["min_variance"; "max_sharpe"])
  then Ok v
  else Raise (Exception "ValueError"
                "Method must be one of: ['min_variance', 'max_sharpe']").

Section Endpoints.

Variable derives_from_ValueError : string → bool.

(** [yf.Ticker(ticker).history(period="5d")] *)
Variable history : string → result DataFrame.

(** [data_service.get_stock_data(tickers, start_date, end_date)]: the
    download, the cache and the clock are outside the model. *)
Variable fetch : list string → option string → option string → result DataFrame.

(** [str] of a list of strings, as an f-string formats it. *)
Variable repr : list string → string.

Variable minimize : MinimizeArgs.t → result OptimizeResult.t.

(** The dependency that validates the tickers and fetches the prices. *)

Definition get_stock_data (request : OptimizationRequest.t) : outcome DataFrame :=
  handle derives_from_ValueError
    (let valid_tickers :=
       DataService.validate_tickers history (OptimizationRequest.tickers request) in
     if (length valid_tickers <? 2)%nat then
       Raised (HTTPException 422
                 ("At least 2 valid tickers required. Valid tickers from your list: "
                  +:+ repr valid_tickers))
     else
       match fetch valid_tickers (OptimizationRequest.start_date request)
               (OptimizationRequest.end_date request) with
       | Raise e => Raised (Python e)
       | Ok stock_data =>
           if DataFrame_empty stock_data then
             Raised (HTTPException 422
                       "No stock data available for the specified tickers and date range")
           else Returned stock_data
       end)
    (λ e, Raised (HTTPException 422 (exn_str e)))
    (λ _, Raised (HTTPException 500 "Internal server error while fetching data")).

(** [POST /optimize] *)
Definition optimize_portfolio (request : OptimizationRequest.t)
    (stock_data : DataFrame) : H OptimizationResponse.t := λ log,
  let '(body, log') :=
    match optimizer.optimize_portfolio minimize stock_data
            (OptimizationRequest.method request) log with
    | (Raise e, log') => (Raised (Python e), log')
    | (Ok result, log') =>
        match optimizer.get_individual_asset_performance stock_data with
        | Raise e => (Raised (Python e), log')
        | Ok individual_assets =>
            (Returned
               {| OptimizationResponse.weights := Portfolio.weights result;
                  OptimizationResponse.exp_return := Portfolio.exp_return result;
                  OptimizationResponse.exp_risk := Portfolio.exp_risk result;
                  OptimizationResponse.sharpe := Portfolio.sharpe result;
                  OptimizationResponse.success := Portfolio.success result;
                  OptimizationResponse.message := Portfolio.message result;
                  OptimizationResponse.individual_assets := Some individual_assets |},
             log')
        end
    end in
  (handle derives_from_ValueError body
     (λ e, Raised (HTTPException 422 (exn_str e)))
     (λ _, Raised (HTTPException 500 "Internal server error during optimization")),
   log').

(** [POST /frontier] *)
Definition generate_efficient_frontier (request : OptimizationRequest.t)
    (stock_data : DataFrame) : H FrontierResponse.t := λ log,
  let '(body, log') :=
    match optimizer.generate_efficient_frontier minimize stock_data 30 log with
    | (Raise e, log') => (Raised (Python e), log')
    | (Ok frontier_points, log') =>
        match frontier_points with
        | [] =>
            (Raised (HTTPException 422
                       "Unable to generate efficient frontier. Check your tickers and try again."),
             log')
        | _ =>
            match optimizer.get_individual_asset_performance stock_data with
            | Raise e => (Raised (Python e), log')
            | Ok individual_assets =>
                (Returned
                   {| FrontierResponse.points := frontier_points;
                      FrontierResponse.individual_assets := Some individual_assets |},
                 log')
            end
        end
    end in
  (handle derives_from_ValueError body
     (λ e, Raised (HTTPException 422 (exn_str e)))
     (λ _, Raised (HTTPException 500
                     "Internal server error during frontier generation")),
   log').

End Endpoints.

End Api.

(** A request for the minimum-variance portfolio of two tickers. *)
Definition sample_request : Api.OptimizationRequest.t :=
  {| Api.OptimizationRequest.tickers := ["AAPL"; "MSFT"];
     Api.OptimizationRequest.method := "min_variance";
     Api.OptimizationRequest.start_date := None;
     Api.OptimizationRequest.end_date := None |}.

(** *** Portfolios of one or two assets, prices in another unit *)


(** The same weights as real numbers. *)
Definition unit_vector (n k : nat) : list R := <[k := 1%R]> (replicate n 0%R).

(** The portfolio that holds the share [s] of asset [i] and the rest of
    asset [j]. *)
Definition two_assets (n i j : nat) (s : R) : list R :=
  zip_with Rplus (map (Rmult s) (unit_vector n i))
    (map (Rmult (1 - s)) (unit_vector n j)).

(** The table with the prices of every asset multiplied by a factor of its
    own. *)
Definition rescale (factors : vector) (df : DataFrame) : DataFrame :=
  {| columns := columns df;
     values := map (λ row, zip_with fmul row factors) (values df) |}.

(** * Properties *)

(** ** Arithmetic of the IEEE values *)

Lemma Rsign_neg (r : R) : (r < 0)%R → Rsign r = Neg.
Proof. intros H. unfold Rsign. destruct (total_order_T r 0) as [[?|?]|?]; [done|lra|lra]. Qed.

Lemma Rsign_zero (r : R) : r = 0%R → Rsign r = Zero.
Proof. intros H. unfold Rsign. destruct (total_order_T r 0) as [[?|?]|?]; [lra|done|lra]. Qed.

Lemma Rsign_pos (r : R) : (0 < r)%R → Rsign r = Pos.
Proof. intros H. unfold Rsign. destruct (total_order_T r 0) as [[?|?]|?]; [lra|lra|done]. Qed.

Lemma Rltb_true (a b : R) : (a < b)%R → Rltb a b = true.
Proof. intros H. unfold Rltb. by destruct (Rlt_dec a b). Qed.

Lemma Rltb_false (a b : R) : (b <= a)%R → Rltb a b = false.
Proof. intros H. unfold Rltb. destruct (Rlt_dec a b); [lra|done]. Qed.

Lemma Rleb_true (a b : R) : (a <= b)%R → Rleb a b = true.
Proof. intros H. unfold Rleb. by destruct (Rle_dec a b). Qed.

Lemma Rleb_false (a b : R) : (b < a)%R → Rleb a b = false.
Proof. intros H. unfold Rleb. destruct (Rle_dec a b); [lra|done]. Qed.

Lemma fdiv_finite (a b : R) : b ≠ 0%R → (Finite a / Finite b)%fl = Finite (a / b).
Proof.
  intros Hb. unfold fdiv, Rsign.
  destruct (total_order_T b 0) as [[?|?]|?]; [done|lra|done].
Qed.

Lemma fsqrt_nonneg (r : R) : (0 <= r)%R → fsqrt (Finite r) = Finite (sqrt r).
Proof.
  intros Hr. unfold fsqrt, Rsign.
  destruct (total_order_T r 0) as [[?|?]|?]; [lra|done|done].
Qed.

Lemma fsqrt_negative (r : R) : (r < 0)%R → fsqrt (Finite r) = NaN.
Proof. intros Hr. unfold fsqrt. by rewrite Rsign_neg. Qed.


(** Settles the sign tests of the arithmetic on concrete numbers. *)
Ltac sign_step :=
  match goal with
  | |- context [Rsign ?r] =>
      first [ rewrite (Rsign_pos r) by lra
            | rewrite (Rsign_neg r) by lra
            | rewrite (Rsign_zero r) by lra ]
  end.

(** Evaluates the estimator on a concrete table. *)
Ltac evaluate_statistics :=
  unfold calculate_returns_and_covariance, dropna, pct_change, DataFrame_mean,
    DataFrame_cov, np_cov, frame_columns, series_mean, column;
  cbn; repeat (sign_step; cbn).

(** ** Shapes *)

Lemma np_dot_ok (a b : vector) :
  length a = length b → np_dot a b = Ok (fsum (zip_with fmul a b)).
Proof. intros H. unfold np_dot. by rewrite decide_True. Qed.

Lemma np_dot_mismatch (a b : vector) :
  length a ≠ length b → np_dot a b = Raise (Exception "ValueError" "shapes not aligned").
Proof. intros H. unfold np_dot. by rewrite decide_False. Qed.

Lemma np_matvec_ok (m : matrix) (v : vector) :
  Forall (λ row, length row = length v) m →
  np_matvec m v = Ok (map (λ row, fsum (zip_with fmul row v)) m).
Proof.
  induction 1 as [|row rest Hrow _ IH]; [done|].
  cbn. rewrite (np_dot_ok _ _ Hrow). cbn. rewrite IH. reflexivity.
Qed.

Lemma variance_objective_ok (cov : matrix) (w : vector) :
  square (length w) cov →
  variance_objective cov w = Ok (quadratic_form cov w).
Proof.
  intros [Hlen Hrows]. unfold variance_objective.
  rewrite np_matvec_ok by done. cbn.
  rewrite np_dot_ok; [done|]. by rewrite length_map.
Qed.

Lemma frame_columns_length (df : DataFrame) :
  length (frame_columns df) = length (columns df).
Proof. unfold frame_columns. by rewrite length_map, length_seq. Qed.

Lemma np_cov_square (X : list vector) (nobs : nat) :
  square (length X) (np_cov X nobs).
Proof.
  unfold np_cov, square. split.
  - by rewrite !length_map.
  - apply Forall_map, Forall_forall. intros xi _. cbn. by rewrite !length_map.
Qed.

Section Shapes.

Variable price_data : DataFrame.

Lemma expected_returns_length :
  length (calculate_returns_and_covariance price_data).1
  = length (columns price_data).
Proof.
  unfold calculate_returns_and_covariance, DataFrame_mean. cbv [fst].
  by rewrite !length_map, frame_columns_length.
Qed.

Lemma covariance_matrix_square :
  square (length (columns price_data))
    (calculate_returns_and_covariance price_data).2.
Proof.
  unfold calculate_returns_and_covariance, DataFrame_cov. cbv [snd].
  pose proof (np_cov_square (frame_columns (dropna (pct_change price_data)))
                (length (values (dropna (pct_change price_data))))) as [Hl Hr].
  rewrite frame_columns_length in Hl, Hr.
  change (columns (dropna (pct_change price_data)))
    with (columns price_data) in Hl, Hr.
  split.
  - by rewrite length_map.
  - apply Forall_map. eapply Forall_impl; [exact Hr|].
    intros row Hrow. cbn. by rewrite length_map.
Qed.

End Shapes.

(** ** Finite vectors *)

Lemma fsum_finite (l : list R) : fsum (map Finite l) = Finite (Rsum l).
Proof. induction l as [|a l IH]; [done|]. cbn. unfold fsum in IH. by rewrite IH. Qed.

Lemma zip_with_fmul_finite (a b : list R) :
  zip_with fmul (map Finite a) (map Finite b) = map Finite (zip_with Rmult a b).
Proof.
  revert b. induction a as [|x a IH]; intros [|y b]; cbn; [done..|].
  by rewrite IH.
Qed.

Lemma finite_vector (v : vector) :
  Forall (λ x, is_finite x) v → ∃ rs, v = map Finite rs.
Proof.
  induction 1 as [|x v Hx _ [rs ->]]; [by exists []|].
  destruct x as [r| | |]; try done. by exists (r :: rs).
Qed.

Lemma nth_zip_with {A B C} (f : A → B → C) (a : list A) (b : list B)
    (j : nat) (da : A) (db : B) (dc : C) :
  (j < length a)%nat → (j < length b)%nat →
  nth j (zip_with f a b) dc = f (nth j a da) (nth j b db).
Proof.
  revert b j. induction a as [|x a IH]; intros [|y b] [|j]; cbn; try lia; [done|].
  intros. apply IH; lia.
Qed.

(** ** Daily returns of a clean price table *)

Lemma pct_cell_finite (c p : float64) :
  positive c → positive p → is_finite (c / p - 1)%fl.
Proof.
  intros (a & -> & Ha) (b & -> & Hb). rewrite fdiv_finite by lra. done.
Qed.

Lemma pct_row_finite (row prev : vector) :
  Forall positive row → Forall positive prev →
  Forall (λ x, is_finite x) (zip_with (λ c p, (c / p - 1)%fl) row prev).
Proof.
  intros Hrow. revert prev. induction Hrow as [|c row Hc _ IH]; intros prev Hprev.
  - constructor.
  - destruct Hprev as [|p prev Hp Hprev]; cbn [zip_with]; constructor.
    + by apply pct_cell_finite.
    + by apply IH.
Qed.

Lemma pct_rows_finite (prev : vector) (rows : matrix) :
  Forall positive prev → Forall (Forall positive) rows →
  Forall (Forall (λ x, is_finite x)) (pct_rows prev rows).
Proof.
  intros Hprev Hrows. revert prev Hprev.
  induction Hrows as [|row rows Hrow _ IH]; intros prev Hprev; cbn; constructor.
  - by apply pct_row_finite.
  - by apply IH.
Qed.

Lemma filter_all {A} (f : A → bool) (l : list A) :
  Forall (λ a, f a = true) l → List.filter f l = l.
Proof. induction 1 as [|a l Ha _ IH]; [done|]. cbn. by rewrite Ha, IH. Qed.

Lemma finite_row_kept (row : vector) :
  Forall (λ x, is_finite x) row →
  forallb (λ v, negb (is_nan v)) row = true.
Proof.
  induction 1 as [|x row Hx _ IH]; [done|]. cbn. rewrite IH.
  by destruct x.
Qed.

(** On a clean table with at least one column, [pct_change] followed by
    [dropna] removes the first row and nothing else. *)
Lemma daily_returns_rows (df : DataFrame) (first : vector) (rest : matrix) :
  clean df → columns df ≠ [] → values df = first :: rest →
  values (dropna (pct_change df)) = pct_rows first rest.
Proof.
  intros [Hrect Hpos] Hcols Hvalues. unfold dropna, pct_change. cbn.
  unfold rectangular in Hrect. rewrite Hvalues in *.
  inversion_clear Hrect as [|? ? Hlen _]. inversion_clear Hpos as [|? ? Hfirst Hrest].
  destruct first as [|p first].
  { destruct (columns df); [done|discriminate]. }
  cbn. apply filter_all.
  eapply Forall_impl; [apply (pct_rows_finite (p :: first) rest); done|].
  apply finite_row_kept.
Qed.

Lemma pct_rows_length (prev : vector) (rows : matrix) :
  length (pct_rows prev rows) = length rows.
Proof.
  revert prev. induction rows as [|row rows IH]; intros prev; [done|].
  cbn. by rewrite IH.
Qed.

(** Column [j] of the daily returns, read cell by cell. *)
Lemma column_pct_rows (j : nat) (prev : vector) (rest : matrix) :
  (j < length prev)%nat → Forall (λ row, (j < length row)%nat) rest →
  column j (pct_rows prev rest) = Spec.changes (prev :: rest) j.
Proof.
  unfold Spec.changes.
  intros Hprev Hrest. revert prev Hprev.
  induction Hrest as [|row rest Hrow _ IH]; intros prev Hprev; [done|].
  replace (length (prev :: row :: rest) - 1)%nat with (S (length rest))
    by (cbn; lia).
  cbn [pct_rows column map seq]. f_equal.
  - unfold Spec.cell. cbn.
    by rewrite (nth_zip_with _ row prev j NaN NaN NaN).
  - fold (column j (pct_rows row rest)). rewrite (IH row Hrow).
    replace (length (row :: rest) - 1)%nat with (length rest) by (cbn; lia).
    rewrite <- (seq_shift (length rest) 1), map_map. apply map_ext_in.
    intros t Ht. apply in_seq in Ht. unfold Spec.cell.
    destruct t as [|t]; [lia|]. cbn. by rewrite Nat.sub_0_r.
Qed.

(** The columns of the daily returns are the per-period changes of the
    specification. *)
Lemma daily_returns_columns (df : DataFrame) :
  clean df → (1 ≤ length (values df))%nat →
  frame_columns (dropna (pct_change df))
  = map (Spec.changes (values df)) (seq 0 (length (columns df))).
Proof.
  intros Hclean Hrows. unfold frame_columns.
  change (columns (dropna (pct_change df))) with (columns df).
  destruct (columns df) as [|c cs] eqn:Hcols; [done|].
  destruct (values df) as [|first rest] eqn:Hvalues; [cbn in Hrows; lia|].
  rewrite (daily_returns_rows df first rest); [|done|by rewrite Hcols|done].
  apply map_ext_in. intros j Hj. apply in_seq in Hj.
  destruct Hclean as [Hrect _]. unfold rectangular in Hrect.
  rewrite Hvalues, Hcols in Hrect. inversion_clear Hrect as [|? ? Hlen Hrest].
  cbn beta in Hlen. apply column_pct_rows; [lia|].
  eapply Forall_impl; [exact Hrest|]. cbn beta. intros; lia.
Qed.

Lemma daily_returns_count (df : DataFrame) :
  clean df → columns df ≠ [] →
  length (values (dropna (pct_change df))) = (length (values df) - 1)%nat.
Proof.
  intros Hclean Hcols. destruct (values df) as [|first rest] eqn:Hvalues.
  - unfold dropna, pct_change. cbn. by rewrite Hvalues.
  - rewrite (daily_returns_rows df first rest) by done.
    rewrite pct_rows_length. cbn. lia.
Qed.

Lemma cell_positive (df : DataFrame) (t j : nat) :
  clean df → (t < length (values df))%nat → (j < length (columns df))%nat →
  positive (Spec.cell (values df) t j).
Proof.
  intros [Hrect Hpos] Ht Hj. unfold Spec.cell, rectangular in *.
  rewrite List.Forall_forall in Hrect, Hpos.
  assert (In (nth t (values df) []) (values df)) as Hin by by apply nth_In.
  specialize (Hrect _ Hin). specialize (Hpos _ Hin).
  rewrite List.Forall_forall in Hpos. apply Hpos, nth_In. lia.
Qed.

Lemma changes_finite (df : DataFrame) (j : nat) :
  clean df → (j < length (columns df))%nat →
  ∃ rs, Spec.changes (values df) j = map Finite rs
        ∧ length rs = (length (values df) - 1)%nat.
Proof.
  intros Hclean Hj.
  destruct (finite_vector (Spec.changes (values df) j)) as [rs Hrs].
  - unfold Spec.changes. apply Forall_map, Forall_forall.
    intros t Ht%list_elem_of_In%in_seq. cbn beta.
    apply pct_cell_finite; apply cell_positive; try done; lia.
  - exists rs. split; [done|].
    apply (f_equal length) in Hrs. rewrite length_map in Hrs. rewrite <- Hrs.
    unfold Spec.changes. by rewrite length_map, length_seq.
Qed.

(** ** The sample covariance of finite columns *)

Lemma zip_with_map {A B A' B' C} (f : A' → B' → C) (h : A → A') (k : B → B')
    (a : list A) (b : list B) :
  zip_with f (map h a) (map k b) = zip_with (λ x y, f (h x) (k y)) a b.
Proof.
  revert b. induction a as [|x a IH]; intros [|y b]; cbn; [done..|].
  by rewrite IH.
Qed.

Lemma zip_with_finite (f : float64 → float64 → float64) (g : R → R → R)
    (xs ys : list R) :
  (∀ a b, f (Finite a) (Finite b) = Finite (g a b)) →
  zip_with f (map Finite xs) (map Finite ys) = map Finite (zip_with g xs ys).
Proof.
  intros Hfg. revert ys. induction xs as [|x xs IH]; intros [|y ys]; cbn; [done..|].
  by rewrite Hfg, IH.
Qed.

Lemma series_mean_finite (xs : list R) :
  xs ≠ [] → series_mean (map Finite xs) = Finite (Rmean xs).
Proof.
  intros Hxs. unfold series_mean, of_nat. rewrite fsum_finite, length_map.
  apply fdiv_finite, not_0_INR. by destruct xs.
Qed.

Lemma deviations_sum_finite (xs ys : list R) :
  xs ≠ [] → ys ≠ [] →
  fsum (zip_with (λ a b, ((a - series_mean (map Finite xs))
                          * (b - series_mean (map Finite ys)))%fl)
          (map Finite xs) (map Finite ys))
  = Finite (Rcov_sum xs ys).
Proof.
  intros Hxs Hys. rewrite !series_mean_finite by done.
  rewrite (zip_with_finite _
             (λ a b, ((a + - Rmean xs) * (b + - Rmean ys))%R)) by done.
  apply fsum_finite.
Qed.

Lemma Rcov_sum_single (a b : R) : Rcov_sum [a] [b] = 0%R.
Proof. unfold Rcov_sum, Rmean. cbn. field. Qed.

(** The normalisation of [np.cov] agrees with the division by N - 1. *)
Lemma np_cov_normalisation (s : R) (n : nat) :
  (n = 1%nat → s = 0%R) → (1 ≤ n)%nat →
  (Finite s * (1 / (if (n <=? 1)%nat then 0 else of_nat (n - 1))))%fl
  = (Finite s / (of_nat n - 1))%fl.
Proof.
  intros Hs Hn. destruct (Nat.leb_spec n 1) as [Hle|Hgt].
  - assert (n = 1%nat) as -> by lia. rewrite (Hs eq_refl). cbn.
    rewrite (Rsign_zero 0%R) by lra. rewrite (Rsign_pos 1%R) by lra.
    rewrite (Rsign_zero (1 + - (1))%R) by lra. done.
  - unfold of_nat. rewrite minus_INR by lia. cbn [INR].
    assert (INR n - 1 ≠ 0)%R as Hne.
    { apply lt_INR in Hgt. cbn in Hgt. lra. }
    rewrite fdiv_finite by done. cbn -[INR fdiv].
    rewrite fdiv_finite by lra. f_equal. field. lra.
Qed.

Lemma np_cov_entry (x y : vector) :
  Forall (λ v, is_finite v) x → Forall (λ v, is_finite v) y →
  length x = length y → x ≠ [] →
  (fsum (zip_with fmul (map (λ a, (a - series_mean x)%fl) x)
           (map (λ a, (a - series_mean y)%fl) y))
   * (1 / (if (length x <=? 1)%nat then 0 else of_nat (length x - 1))))%fl
  = Spec.sample_covariance x y.
Proof.
  intros [xs ->]%finite_vector [ys ->]%finite_vector Hlen Hx.
  rewrite !length_map in Hlen.
  assert (xs ≠ []) as Hxs by by destruct xs.
  assert (ys ≠ []) as Hys by (destruct ys, xs; done).
  unfold Spec.sample_covariance. change Spec.mean with series_mean.
  rewrite zip_with_map, !deviations_sum_finite by done.
  rewrite length_map. apply np_cov_normalisation.
  - intros H1. destruct xs as [|a [|? ?]], ys as [|b [|? ?]]; try done.
    apply Rcov_sum_single.
  - destruct xs; [done|cbn; lia].
Qed.

(** ** The statistics estimator *)

Lemma expected_returns_clean (price_data : DataFrame) :
  clean price_data → (1 ≤ length (values price_data))%nat →
  (calculate_returns_and_covariance price_data).1
  = Spec.expected_returns price_data.
Proof.
  intros Hclean Hrows. unfold calculate_returns_and_covariance. cbv [fst].
  unfold DataFrame_mean. rewrite daily_returns_columns by done.
  unfold Spec.expected_returns. by rewrite !map_map.
Qed.

Lemma covariance_matrix_clean (price_data : DataFrame) :
  clean price_data → (2 ≤ length (values price_data))%nat →
  (calculate_returns_and_covariance price_data).2
  = Spec.covariance_matrix price_data.
Proof.
  intros Hclean Hrows. unfold calculate_returns_and_covariance. cbv [snd].
  unfold DataFrame_cov. rewrite daily_returns_columns by (done || lia).
  unfold Spec.covariance_matrix, np_cov. cbv zeta.
  destruct (decide (columns price_data = [])) as [Hcols|Hcols].
  { by rewrite Hcols. }
  rewrite daily_returns_count by done.
  rewrite !map_map. apply map_ext_in. intros i Hi%in_seq.
  rewrite !map_map. apply map_ext_in. intros j Hj%in_seq.
  destruct (changes_finite price_data i Hclean) as (xs & Hxs & Hlx); [lia|].
  destruct (changes_finite price_data j Hclean) as (ys & Hys & Hly); [lia|].
  f_equal. rewrite <- Hlx.
  replace (length xs) with (length (Spec.changes (values price_data) i))
    by (by rewrite Hxs, length_map).
  apply np_cov_entry.
  - rewrite Hxs. apply Forall_map, Forall_forall. done.
  - rewrite Hys. apply Forall_map, Forall_forall. done.
  - rewrite Hxs, Hys, !length_map. lia.
  - rewrite Hxs. destruct xs; [cbn in Hlx; lia|done].
Qed.

(** C2: on a price table of positive prices with at least 2 rows, the
    estimator returns, per asset, the arithmetic mean of the per-period
    changes [row[t] / row[t-1] - 1] (first row discarded) times 252, and the
    sample covariance of these changes times 252. *)
Theorem estimator_refines_spec (price_data : DataFrame) :
  clean price_data → (2 ≤ length (values price_data))%nat →
  calculate_returns_and_covariance price_data
  = (Spec.expected_returns price_data, Spec.covariance_matrix price_data).
Proof.
  intros Hclean Hrows.
  pose proof (expected_returns_clean price_data Hclean) as Hmean.
  pose proof (covariance_matrix_clean price_data Hclean Hrows) as Hcov.
  destruct (calculate_returns_and_covariance price_data) as [er cov].
  cbn [fst snd] in Hmean, Hcov. rewrite Hmean, Hcov by lia. reflexivity.
Qed.

Lemma three_days_clean : clean three_days.
Proof.
  split.
  - repeat constructor.
  - repeat constructor; eexists; (split; [reflexivity|lra]).
Qed.


Lemma estimator_refines_spec_witness :
  calculate_returns_and_covariance three_days
  = (Spec.expected_returns three_days, Spec.covariance_matrix three_days).
Proof.
  apply (estimator_refines_spec three_days).
  - exact three_days_clean.
  - cbn. lia.
Defined.

(** The estimator on the sample tables.  Prices 1, 2, 4 double every day:
    the daily return is 1 with no variance.  With two rows there is one
    return per asset, and no covariance. *)
Example single_asset_statistics :
  calculate_returns_and_covariance single_asset = ([Finite 252], [[Finite 0]]).
Proof. evaluate_statistics. repeat f_equal; field. Qed.

Example two_days_statistics :
  calculate_returns_and_covariance two_days
  = ([Finite 252; Finite 504], [[NaN; NaN]; [NaN; NaN]]).
Proof. evaluate_statistics. repeat f_equal; field. Qed.

Example three_days_statistics :
  calculate_returns_and_covariance three_days
  = ([Finite (126 / 5); Finite (-63 / 5)],
     [[Finite 0; Finite 0]; [Finite 0; Finite (567 / 50)]]).
Proof. evaluate_statistics. repeat f_equal; field. Qed.

(** ** Symmetry and diagonal of the covariance matrix *)

Lemma lookup_map {A B} (f : A → B) (l : list A) (i : nat) :
  map f l !! i = f <$> (l !! i).
Proof. revert i. induction l as [|a l IH]; intros [|i]; cbn; try done. Qed.












(** ** The covariance matrix as a Gram matrix

    In exact arithmetic the covariance matrix of a clean table is a Gram
    matrix: its entry (i, j) is, up to a positive factor, the dot product
    of the deviations of assets i and j from their means. *)


Lemma Rdot_scale (c : R) (a v : list R) :
  Rdot (map (Rmult c) a) v = (c * Rdot a v)%R.
Proof.
  unfold Rdot, Rsum. revert v.
  induction a as [|x a IH]; intros [|y v]; cbn; try lra.
  rewrite IH. lra.
Qed.

Lemma Rdot_plus (a b v : list R) :
  length a = length b →
  Rdot (zip_with Rplus a b) v = (Rdot a v + Rdot b v)%R.
Proof.
  unfold Rdot, Rsum. revert b v.
  induction a as [|x a IH]; intros [|y b] [|z v] Hlen; cbn in *; try lra;
    try discriminate.
  rewrite IH by lia. lra.
Qed.






(** ** The performance evaluator *)

Lemma guarded_sharpe_zero_risk (rf ret risk : float64) :
  (risk >? 0)%fl = false → guarded_sharpe rf ret risk = 0%fl.
Proof. intros H. unfold guarded_sharpe. by rewrite H. Qed.

Section Performance.

Variable risk_free_rate : float64.

Lemma portfolio_performance_ok (weights expected_returns : vector)
    (covariance_matrix : matrix) :
  length expected_returns = length weights →
  square (length weights) covariance_matrix →
  portfolio_performance risk_free_rate weights expected_returns covariance_matrix
  = Ok (fsum (zip_with fmul weights expected_returns),
        fsqrt (quadratic_form covariance_matrix weights),
        guarded_sharpe risk_free_rate
          (fsum (zip_with fmul weights expected_returns))
          (fsqrt (quadratic_form covariance_matrix weights))).
Proof.
  intros Her [Hlen Hrows]. unfold portfolio_performance.
  rewrite np_dot_ok by done. cbn.
  rewrite np_matvec_ok by done. cbn.
  rewrite np_dot_ok by (by rewrite length_map). reflexivity.
Qed.

Lemma asset_performance_loop_ok (tickers : list string) (er : vector)
    (cov : matrix) (i : nat) :
  (i + length tickers ≤ length er)%nat →
  (i + length tickers ≤ length cov)%nat →
  Forall (λ row, (i + length tickers ≤ length row)%nat) cov →
  ∃ perfs,
    asset_performance_loop risk_free_rate i tickers er cov = Ok perfs
    ∧ length perfs = length tickers
    ∧ ∀ k a, perfs !! k = Some a →
        ∃ variance asset_return,
          np_index2 cov (i + k) (i + k) = Ok variance
          ∧ np_index er (i + k) = Ok asset_return
          ∧ tickers !! k = Some (AssetPerformance.ticker a)
          ∧ AssetPerformance.risk a = fsqrt variance
          ∧ AssetPerformance.return_ a = asset_return
          ∧ AssetPerformance.sharpe a
            = guarded_sharpe risk_free_rate asset_return (fsqrt variance).
Proof.
  revert i. induction tickers as [|t ts IH]; intros i Her Hcov Hrows.
  - exists []. cbn. split_and!; [done|done|]. intros k a Hk. done.
  - cbn [length] in *.
    destruct (lookup_lt_is_Some_2 cov i) as [row Hrow]; [lia|].
    assert (i < length row)%nat as Hi.
    { rewrite Forall_forall in Hrows.
      specialize (Hrows row (list_elem_of_lookup_2 _ _ _ Hrow)). lia. }
    destruct (lookup_lt_is_Some_2 row i Hi) as [c Hc].
    destruct (lookup_lt_is_Some_2 er i) as [r Hr]; [lia|].
    destruct (IH (S i)) as (perfs & Hperfs & Hlen & Hall); [lia|lia| |].
    { eapply Forall_impl; [exact Hrows|]. cbn. intros; lia. }
    eexists. cbn [asset_performance_loop].
    unfold np_index2 at 1. rewrite Hrow. unfold np_index at 1 2.
    rewrite Hc, Hr. cbn. rewrite Hperfs. cbn.
    split_and!; [done|by cbn; rewrite Hlen|].
    intros [|k] a Hk; cbn in Hk.
    + injection Hk as <-. exists c, r. rewrite Nat.add_0_r.
      unfold np_index2, np_index. rewrite Hrow, Hc, Hr. done.
    + destruct (Hall k a Hk) as (v & ar & ?). exists v, ar.
      by replace (i + S k)%nat with (S i + k)%nat by lia.
Qed.

End Performance.

(** C5 (as amended): on arrays of matching shapes the evaluator returns
    without raising; the risk is the square root of the variance
    weights^T . covariance_matrix . weights, with no clamping (so it is NaN
    when the variance is negative); the Sharpe ratio is
    (return - risk_free_rate) / risk when risk > 0 and exactly 0 otherwise,
    which covers a zero and a NaN risk, so no division by zero takes place;
    the per-asset scores use the same guard. *)
Theorem performance_evaluator_guard (risk_free_rate : float64)
    (weights expected_returns : vector) (covariance_matrix : matrix) :
  length expected_returns = length weights →
  square (length weights) covariance_matrix →
  let ret := fsum (zip_with fmul weights expected_returns) in
  let variance := quadratic_form covariance_matrix weights in
  let vol := fsqrt variance in
  let sharpe := guarded_sharpe risk_free_rate ret vol in
  portfolio_performance risk_free_rate weights expected_returns covariance_matrix
    = Ok (ret, vol, sharpe)
  ∧ ((vol >? 0)%fl = false → sharpe = 0%fl)
  ∧ ∀ price_data : DataFrame,
      ∃ perfs,
        get_individual_asset_performance risk_free_rate price_data = Ok perfs
        ∧ length perfs = length (columns price_data)
        ∧ ∀ k a, perfs !! k = Some a →
            ∃ asset_variance asset_return,
              np_index2 (calculate_returns_and_covariance price_data).2 k k
                = Ok asset_variance
              ∧ np_index (calculate_returns_and_covariance price_data).1 k
                = Ok asset_return
              ∧ AssetPerformance.risk a = fsqrt asset_variance
              ∧ AssetPerformance.sharpe a
                = guarded_sharpe risk_free_rate asset_return (fsqrt asset_variance)
              ∧ ((AssetPerformance.risk a >? 0)%fl = false
                 → AssetPerformance.sharpe a = 0%fl).
Proof.
  intros Her Hcov ret variance vol sharpe. split_and!.
  - by apply portfolio_performance_ok.
  - apply guarded_sharpe_zero_risk.
  - intros price_data.
    pose proof (expected_returns_length price_data) as Hl.
    pose proof (covariance_matrix_square price_data) as [Hn Hrows].
    unfold get_individual_asset_performance.
    destruct (calculate_returns_and_covariance price_data) as [er cov].
    cbn [fst snd] in *.
    destruct (asset_performance_loop_ok risk_free_rate (columns price_data) er cov 0)
      as (perfs & Hperfs & Hlen & Hall).
    + cbn. lia.
    + cbn. lia.
    + eapply Forall_impl; [exact Hrows|]. cbn. intros; lia.
    + exists perfs. split_and!; [done|done|].
      intros k a Hk. destruct (Hall k a Hk) as (v & r & Hv & Hr & _ & Hrisk & _ & Hs).
      exists v, r. cbn in Hv, Hr. split_and!; try done.
      rewrite Hs, Hrisk. apply guarded_sharpe_zero_risk.
Qed.

Lemma performance_evaluator_guard_witness :
  portfolio_performance 0%fl [1%fl] [1%fl] [[0%fl]]
  = Ok (fsum (zip_with fmul [1%fl] [1%fl]),
        fsqrt (quadratic_form [[0%fl]] [1%fl]),
        guarded_sharpe 0%fl (fsum (zip_with fmul [1%fl] [1%fl]))
          (fsqrt (quadratic_form [[0%fl]] [1%fl]))).
Proof.
  apply (performance_evaluator_guard 0%fl [1%fl] [1%fl] [[0%fl]]).
  - reflexivity.
  - split; [reflexivity|]. repeat constructor.
Defined.

(** The square root of a negative variance is NaN in the code, where the
    clamped formula gives 0. *)
Lemma negative_variance_not_clamped :
  ∃ ret sharpe,
    portfolio_performance 0%fl [1%fl] [0%fl] [[Finite (-1)]]
      = Ok (ret, NaN, sharpe)
    ∧ clamped_risk (quadratic_form [[Finite (-1)]] [1%fl]) = 0%fl.
Proof.
  eexists _, _. split.
  - rewrite portfolio_performance_ok; [|done|by split; repeat constructor].
    unfold quadratic_form. cbn -[fsqrt]. rewrite fsqrt_negative by lra.
    reflexivity.
  - unfold clamped_risk, quadratic_form, fmax. cbn -[fsqrt Rltb].
    rewrite Rltb_true by lra. rewrite fsqrt_nonneg by lra. by rewrite sqrt_0.
Qed.

(** ** Unknown objective modes *)

Section UnknownMethod.

Variable risk_free_rate : float64.
Variable minimize : MinimizeArgs.t → result OptimizeResult.t.

Lemma py_truediv_pos a n :
  n ≠ 0%nat → py_truediv a n = Ok (a / of_nat n)%fl.
Proof. intros Hn. unfold py_truediv. by destruct (decide (n = 0%nat)). Qed.

Lemma py_truediv_zero a :
  py_truediv a 0 = Raise (Exception "ZeroDivisionError" "float division by zero").
Proof. reflexivity. Qed.

(** C7 (as amended): with an objective mode that is neither min_variance
    nor max_sharpe the solve never invokes the numerical routine, whatever
    the price table; it raises the unknown-method error when the table has
    at least one asset column, and the ZeroDivisionError of [1.0 / n_assets]
    when it has none. *)
Theorem unknown_method_rejected (price_data : DataFrame) (method : string)
    (log : solver_log) :
  method ≠ "min_variance" → method ≠ "max_sharpe" →
  optimize_portfolio risk_free_rate minimize price_data method log =
    (Raise (if decide (columns price_data = [])
            then Exception "ZeroDivisionError" "float division by zero"
            else UnknownMethodError method), log).
Proof.
  intros Hmv Hms. unfold optimize_portfolio.
  destruct (calculate_returns_and_covariance price_data) as [er cov].
  destruct (columns price_data) as [|t ts]; [done|].
  apply String.eqb_neq in Hmv, Hms.
  rewrite decide_False by done.
  cbn. rewrite Hmv, Hms. reflexivity.
Qed.

End UnknownMethod.

Lemma unknown_method_rejected_witness :
  optimize_portfolio 0%fl solver_at_guess
    {| columns := ["AAPL"; "MSFT"]; values := [] |} "bogus" [] =
  (Raise (UnknownMethodError "bogus"), []).
Proof.
  apply (unknown_method_rejected 0%fl solver_at_guess
           {| columns := ["AAPL"; "MSFT"]; values := [] |} "bogus" []);
    discriminate.
Defined.

Lemma unknown_method_empty_frame :
  optimize_portfolio 0%fl solver_at_guess empty_frame "bogus" [] =
    (Raise (Exception "ZeroDivisionError" "float division by zero"), [])
  ∧ fst (optimize_portfolio 0%fl solver_at_guess empty_frame "bogus" [])
    ≠ Raise (UnknownMethodError "bogus").
Proof. split; [reflexivity | discriminate]. Qed.

(** ** Failure of the numerical routine *)

Section SolverFailure.

Variable risk_free_rate : float64.
Variable minimize : MinimizeArgs.t → result OptimizeResult.t.


End SolverFailure.



(** ** Runs of [optimize_portfolio] *)

Section Runs.

Variable risk_free_rate : float64.
Variable minimize : MinimizeArgs.t → result OptimizeResult.t.

(** With a supported mode and at least one column the solve calls the
    numerical routine once. *)
Lemma optimize_portfolio_run (price_data : DataFrame) (method : string)
    (log : solver_log) :
  columns price_data ≠ [] →
  method = "min_variance" ∨ method = "max_sharpe" →
  let call := optimize_portfolio_call risk_free_rate price_data method in
  let stats := calculate_returns_and_covariance price_data in
  optimize_portfolio risk_free_rate minimize price_data method log
  = (match minimize call with
     | Raise cause => Raise (OptimizationFailedError cause)
     | Ok r =>
         match portfolio_performance risk_free_rate (OptimizeResult.x r)
                 stats.1 stats.2 with
         | Raise cause => Raise (OptimizationFailedError cause)
         | Ok (exp_return, exp_risk, sharpe) =>
             Ok {| Portfolio.weights :=
                     dict_of (zip (columns price_data) (OptimizeResult.x r));
                   Portfolio.exp_return := exp_return;
                   Portfolio.exp_risk := exp_risk;
                   Portfolio.sharpe := sharpe;
                   Portfolio.success := OptimizeResult.success r;
                   Portfolio.message :=
                     default "Optimization completed" (OptimizeResult.message r) |}
         end
     end, (log ++ [call])%list).
Proof.
  intros Hcols Hmethod call stats. subst call stats.
  unfold optimize_portfolio, optimize_portfolio_call.
  destruct (calculate_returns_and_covariance price_data) as [er cov].
  assert (length (columns price_data) ≠ 0%nat) as Hn
    by by destruct (columns price_data).
  rewrite (py_truediv_pos _ _ Hn). cbn [fst snd].
  destruct Hmethod as [-> | ->]; cbn [String.eqb Ascii.eqb Bool.eqb]; run_M;
    (destruct (minimize _) as [r|cause]; [|done]);
    by destruct (portfolio_performance _ _ _ _) as [[[? ?] ?]|?].
Qed.

(** A solve that returns has called the numerical routine and passes its
    result on. *)
Lemma optimize_portfolio_inv (price_data : DataFrame) (method : string)
    (log log' : solver_log) (p : Portfolio.t) :
  optimize_portfolio risk_free_rate minimize price_data method log = (Ok p, log') →
  ∃ r,
    minimize (optimize_portfolio_call risk_free_rate price_data method) = Ok r
    ∧ Portfolio.weights p = dict_of (zip (columns price_data) (OptimizeResult.x r))
    ∧ Portfolio.success p = OptimizeResult.success r.
Proof.
  intros Hrun.
  destruct (decide (columns price_data = [])) as [Hcols|Hcols].
  { unfold optimize_portfolio in Hrun. rewrite Hcols in Hrun.
    destruct (calculate_returns_and_covariance price_data). done. }
  destruct (String.eqb_spec method "min_variance") as [Hmv|Hmv];
    [|destruct (String.eqb_spec method "max_sharpe") as [Hms|Hms]].
  3:{ unfold optimize_portfolio in Hrun.
      destruct (calculate_returns_and_covariance price_data).
      rewrite py_truediv_pos in Hrun by by destruct (columns price_data).
      apply String.eqb_neq in Hmv, Hms. rewrite Hmv, Hms in Hrun. done. }
  all: rewrite optimize_portfolio_run in Hrun by auto.
  all: destruct (minimize _) as [r|cause] eqn:Hmin; [|done].
  all: destruct (portfolio_performance _ _ _ _) as [[[? ?] ?]|?]; [|done].
  all: injection Hrun as <- _; by exists r.
Qed.

End Runs.

(** ** Tables that are too small *)

(** C6 (the code at the failing inputs): [optimize_portfolio] has no check on
    the size of the table.  On every table with at least one asset column,
    so on a table with a single asset column and on a table with a single
    row, it raises no insufficient-data error: it calls the numerical
    routine, and when the routine returns a vector of the right shape it
    returns a result. *)
Theorem small_tables_reach_solver (risk_free_rate : float64)
    (minimize : MinimizeArgs.t → result OptimizeResult.t)
    (price_data : DataFrame) (log : solver_log) :
  columns price_data ≠ [] →
  let call := optimize_portfolio_call risk_free_rate price_data "min_variance" in
  snd (optimize_portfolio risk_free_rate minimize price_data "min_variance" log)
  = (log ++ [call])%list
  ∧ ∀ r, minimize call = Ok r →
         length (OptimizeResult.x r) = length (columns price_data) →
         ∃ p, fst (optimize_portfolio risk_free_rate minimize price_data
                     "min_variance" log) = Ok p
              ∧ Portfolio.success p = OptimizeResult.success r.
Proof.
  intros Hcols call.
  rewrite optimize_portfolio_run by auto. fold call. split; [done|].
  intros r Hmin Hlen. rewrite Hmin. cbn [fst].
  rewrite portfolio_performance_ok.
  - eexists. split; reflexivity.
  - by rewrite expected_returns_length.
  - rewrite Hlen. apply covariance_matrix_square.
Qed.

Lemma small_tables_reach_solver_witness :
  (∃ p, optimize_portfolio 0%fl solver_at_guess single_asset "min_variance" []
        = (Ok p, [optimize_portfolio_call 0%fl single_asset "min_variance"])
        ∧ Portfolio.success p = true)
  ∧ (∃ p, optimize_portfolio 0%fl solver_at_guess one_day "min_variance" []
          = (Ok p, [optimize_portfolio_call 0%fl one_day "min_variance"])
          ∧ Portfolio.success p = true).
Proof.
  split.
  - destruct (small_tables_reach_solver 0%fl solver_at_guess single_asset [])
      as [Hlog Hret]; [done|].
    destruct (Hret _ eq_refl eq_refl) as (p & Hp & Hs). exists p.
    split; [|done]. cbn [app] in Hlog. rewrite <- Hp, <- Hlog.
    apply surjective_pairing.
  - destruct (small_tables_reach_solver 0%fl solver_at_guess one_day [])
      as [Hlog Hret]; [done|].
    destruct (Hret _ eq_refl eq_refl) as (p & Hp & Hs). exists p.
    split; [|done]. cbn [app] in Hlog. rewrite <- Hp, <- Hlog.
    apply surjective_pairing.
Defined.

(** The single-asset table with a solver that stays at its initial guess:
    the solve returns the whole weight on the one asset. *)
Example single_asset_solve :
  fst (optimize_portfolio 0%fl solver_at_guess single_asset "min_variance" [])
  = Ok {| Portfolio.weights := {[ "AAPL" := Finite 1 ]};
          Portfolio.exp_return := Finite 252;
          Portfolio.exp_risk := Finite 0;
          Portfolio.sharpe := Finite 0;
          Portfolio.success := true;
          Portfolio.message := "Optimization terminated successfully" |}.
Proof.
  rewrite optimize_portfolio_run by (done || by left).
  unfold solver_at_guess at 1.
  cbn [OptimizeResult.x MinimizeArgs.x0 optimize_portfolio_call
       OptimizeResult.success OptimizeResult.message fst].
  rewrite single_asset_statistics. cbn [fst snd].
  rewrite portfolio_performance_ok; [|done|by split; repeat constructor].
  unfold quadratic_form, guarded_sharpe, dict_of. cbn -[fsqrt Rltb].
  rewrite (Rsign_pos 1%R) by lra. cbn -[fsqrt Rltb].
  replace (1 / 1 * (0 * (1 / 1) + 0) + 0)%R with 0%R by field.
  rewrite fsqrt_nonneg by lra. rewrite sqrt_0. cbn -[Rltb].
  rewrite Rltb_false by lra.
  replace (1 / 1 * 252 + 0)%R with 252%R by field.
  replace (1 / 1)%R with 1%R by field.
  reflexivity.
Qed.

(** ** The weights dictionary *)

Lemma fadd_comm (x y : float64) : (x + y)%fl = (y + x)%fl.
Proof. destruct x, y; cbn; try done. f_equal. lra. Qed.

Lemma fadd_assoc (x y z : float64) : (x + (y + z))%fl = (x + y + z)%fl.
Proof. destruct x, y, z; cbn; try done. f_equal. lra. Qed.

Lemma fadd_0_r (x : float64) : (x + 0)%fl = x.
Proof. destruct x; cbn; try done. f_equal. lra. Qed.

Lemma dict_sum_insert (d : gmap string float64) (k : string) (v : float64) :
  d !! k = None → dict_sum (<[k:=v]> d) = (v + dict_sum d)%fl.
Proof.
  intros Hk. unfold dict_sum. rewrite map_fold_insert_L; [done| |done].
  intros _ _ z1 z2 y _ _ _. cbn.
  by rewrite !fadd_assoc, (fadd_comm z1 z2).
Qed.

Lemma dict_fold_lookup (kvs : list (string * float64))
    (d : gmap string float64) (k : string) (v : float64) :
  foldl (λ d kv, <[kv.1 := kv.2]> d) d kvs !! k = Some v →
  d !! k = Some v ∨ (k, v) ∈ kvs.
Proof.
  revert d. induction kvs as [|[k' v'] kvs IH]; intros d; cbn; [by left|].
  intros [Hd|Hin]%IH.
  - destruct (decide (k' = k)) as [->|Hne].
    + rewrite lookup_insert_eq in Hd. injection Hd as ->. right. left.
    + rewrite lookup_insert_ne in Hd by done. by left.
  - right. by right.
Qed.

Lemma dict_fold_dom (kvs : list (string * float64)) (d : gmap string float64) :
  dom (foldl (λ d kv, <[kv.1 := kv.2]> d) d kvs) = dom d ∪ list_to_set kvs.*1.
Proof.
  revert d. induction kvs as [|[k v] kvs IH]; intros d; cbn.
  - by rewrite (right_id_L ∅ (∪)).
  - rewrite IH, dom_insert_L.
    by rewrite (comm_L (∪) {[k]} (dom d)), <- (assoc_L (∪)).
Qed.

Lemma dict_fold_sum (kvs : list (string * float64)) (d : gmap string float64) :
  NoDup kvs.*1 → (∀ k, k ∈ kvs.*1 → d !! k = None) →
  dict_sum (foldl (λ d kv, <[kv.1 := kv.2]> d) d kvs)
  = (fsum kvs.*2 + dict_sum d)%fl.
Proof.
  revert d. induction kvs as [|[k v] kvs IH]; intros d Hnodup Hfresh; cbn.
  - destruct (dict_sum d); cbn; try done. f_equal. lra.
  - apply NoDup_cons in Hnodup as [Hk Hnodup]. rewrite IH; [|done|].
    + rewrite dict_sum_insert by (apply Hfresh; left).
      by rewrite !fadd_assoc, (fadd_comm v).
    + intros k' Hk'. rewrite lookup_insert_ne by (intros ->; done).
      apply Hfresh. by right.
Qed.

Lemma dict_of_dom (ks : list string) (vs : vector) :
  length ks = length vs → dom (dict_of (zip ks vs)) = list_to_set ks.
Proof.
  intros Hlen. unfold dict_of. rewrite dict_fold_dom, fst_zip by lia.
  by rewrite dom_empty_L, (left_id_L ∅ (∪)).
Qed.

Lemma dict_of_sum (ks : list string) (vs : vector) :
  NoDup ks → length ks = length vs → dict_sum (dict_of (zip ks vs)) = fsum vs.
Proof.
  intros Hnodup Hlen. unfold dict_of. rewrite dict_fold_sum.
  - rewrite snd_zip by lia. unfold dict_sum. rewrite map_fold_empty.
    apply fadd_0_r.
  - by rewrite fst_zip by lia.
  - intros k _. apply lookup_empty.
Qed.

Lemma dict_of_values (P : float64 → Prop) (ks : list string) (vs : vector) :
  Forall P vs → map_Forall (λ _ v, P v) (dict_of (zip ks vs)).
Proof.
  intros Hvs k v Hk. apply dict_fold_lookup in Hk as [Hk|Hin]; [done|].
  rewrite Forall_forall in Hvs. apply Hvs.
  apply elem_of_zip_r in Hin. done.
Qed.

(** ** Weights of a successful solve *)

Lemma unit_bounds_within (n : nat) (x : vector) :
  Forall2 within_bounds (replicate n (0%fl, 1%fl)) x →
  length x = n
  ∧ Forall (λ v, ∃ r, v = Finite r ∧ (- tolerance <= r <= 1 + tolerance)%R) x.
Proof.
  revert x. induction n as [|n IH]; intros x Hx; cbn in Hx.
  - by apply Forall2_nil_inv_l in Hx as ->.
  - apply Forall2_cons_inv_l in Hx as (v & x' & Hv & Hx' & ->).
    destruct (IH x' Hx') as [Hlen Hall]. split; [by cbn; rewrite Hlen|].
    constructor; [|done].
    destruct Hv as (lo & hi & r & [= <- <-] & -> & Hr). exists r. split; [done|lra].
Qed.

Lemma sum_constraint_within (x : vector) :
  satisfies weights_sum_to_one x →
  ∃ s, fsum x = Finite s ∧ (Rabs (s - 1) <= tolerance)%R.
Proof.
  intros (v & Hv & Htol). cbn in Hv. injection Hv as Hv.
  destruct (fsum x) as [s| | |]; try done.
  cbn in Hv. injection Hv as <-. exists s. split; [done|].
  by replace (s - 1)%R with (s + - (1))%R by lra.
Qed.

Section Weights.

Variable risk_free_rate : float64.
Variable minimize : MinimizeArgs.t → result OptimizeResult.t.

(** C1: on a table whose asset identifiers are distinct, and with a
    numerical routine whose successful results are feasible within 1e-6,
    every solve that returns with the success flag set returns a weight
    mapping whose keys are exactly the asset identifiers of the table, whose
    values sum to 1 within 1e-6 and lie in [-1e-6, 1 + 1e-6]. *)
Theorem successful_solve_weights (price_data : DataFrame) (method : string)
    (log log' : solver_log) (p : Portfolio.t) :
  NoDup (columns price_data) →
  feasible_on_success minimize
    (optimize_portfolio_call risk_free_rate price_data method) →
  optimize_portfolio risk_free_rate minimize price_data method log = (Ok p, log') →
  Portfolio.success p = true →
  dom (Portfolio.weights p) = list_to_set (columns price_data)
  ∧ (∃ s, dict_sum (Portfolio.weights p) = Finite s
          ∧ (Rabs (s - 1) <= 1e-6)%R)
  ∧ map_Forall (λ _ w, ∃ r, w = Finite r ∧ (- (1e-6) <= r <= 1 + 1e-6)%R)
      (Portfolio.weights p).
Proof.
  intros Hnodup Hfeasible Hrun Hsuccess.
  apply optimize_portfolio_inv in Hrun as (r & Hmin & -> & Hflag).
  rewrite Hflag in Hsuccess.
  destruct (Hfeasible r Hmin Hsuccess) as [Hbounds Hcons].
  apply unit_bounds_within in Hbounds as [Hlen Hvalues]. symmetry in Hlen.
  apply Forall_cons in Hcons as [Hsum _].
  apply sum_constraint_within in Hsum as (s & Hs & Htol).
  unfold tolerance in *. split_and!.
  - by apply dict_of_dom.
  - exists s. by rewrite dict_of_sum.
  - exact (dict_of_values _ _ _ Hvalues).
Qed.

End Weights.

(** The solver that stays at the equal-weight guess. *)
Lemma solver_at_guess_run (risk_free_rate : float64) (price_data : DataFrame)
    (method : string) (log : solver_log) :
  columns price_data ≠ [] →
  method = "min_variance" ∨ method = "max_sharpe" →
  ∃ p,
    optimize_portfolio risk_free_rate solver_at_guess price_data method log
    = (Ok p, (log ++ [optimize_portfolio_call risk_free_rate price_data method])%list)
    ∧ Portfolio.success p = true.
Proof.
  intros Hcols Hmethod. rewrite optimize_portfolio_run by done.
  unfold solver_at_guess at 1. cbn [OptimizeResult.x MinimizeArgs.x0
    optimize_portfolio_call OptimizeResult.success OptimizeResult.message].
  rewrite portfolio_performance_ok.
  - eexists. split; reflexivity.
  - by rewrite expected_returns_length, length_replicate.
  - rewrite length_replicate. apply covariance_matrix_square.
Qed.

Lemma equal_weights_feasible (risk_free_rate : float64) (method : string) :
  feasible_on_success solver_at_guess
    (optimize_portfolio_call risk_free_rate three_days method).
Proof.
  intros r Hr _. injection Hr as <-.
  unfold feasible, satisfies, within_bounds.
  cbn -[tolerance]. rewrite (Rsign_pos (1 + 1)%R) by lra. split.
  - repeat constructor; eexists 0%R, 1%R, _;
      (split_and!; [done|done|unfold tolerance; lra|unfold tolerance; lra]).
  - repeat constructor. eexists. split; [reflexivity|].
    replace (1 / (1 + 1) + (1 / (1 + 1) + 0) + - (1))%R with 0%R by field.
    rewrite Rabs_R0. unfold tolerance. lra.
Qed.

Lemma successful_solve_weights_witness :
  ∃ p log',
    optimize_portfolio 0%fl solver_at_guess three_days "min_variance" []
    = (Ok p, log')
    ∧ dom (Portfolio.weights p) = list_to_set (columns three_days)
    ∧ (∃ s, dict_sum (Portfolio.weights p) = Finite s
            ∧ (Rabs (s - 1) <= 1e-6)%R)
    ∧ map_Forall (λ _ w, ∃ r, w = Finite r ∧ (- (1e-6) <= r <= 1 + 1e-6)%R)
        (Portfolio.weights p).
Proof.
  destruct (solver_at_guess_run 0%fl three_days "min_variance" [])
    as (p & Hrun & Hsuccess); [done|by left|].
  eexists p, _. split; [exact Hrun|].
  eapply (successful_solve_weights 0%fl solver_at_guess three_days
            "min_variance" []).
  - apply NoDup_cons_2; [|apply NoDup_singleton].
    by intros [=]%list_elem_of_singleton.
  - apply equal_weights_feasible.
  - exact Hrun.
  - exact Hsuccess.
Defined.

(** ** Sorting the frontier *)

Lemma fltb_fleb (x y : float64) : (x <? y)%fl = true → (x <=? y)%fl = true.
Proof.
  destruct x as [a| | |], y as [b| | |]; cbn; try done.
  unfold Rltb, Rleb. destruct (Rlt_dec a b), (Rle_dec a b); try done. lra.
Qed.

Lemma not_fltb_fleb (x y : float64) :
  x ≠ NaN → y ≠ NaN → (y <? x)%fl = false → (x <=? y)%fl = true.
Proof.
  destruct x as [a| | |], y as [b| | |]; cbn; try done.
  unfold Rltb, Rleb. destruct (Rlt_dec b a), (Rle_dec a b); try done. lra.
Qed.

Lemma insert_by_risk_perm (p : point) (l : list point) :
  insert_by_risk p l ≡ₚ p :: l.
Proof.
  induction l as [|q l IH]; [done|]. cbn.
  destruct (risk q <? risk p)%fl; [|done].
  rewrite IH. apply Permutation_swap.
Qed.

Lemma sort_by_risk_perm (l : list point) : sort_by_risk l ≡ₚ l.
Proof.
  induction l as [|p l IH]; [done|]. cbn.
  by rewrite insert_by_risk_perm, IH.
Qed.

Lemma sort_by_risk_length (l : list point) :
  length (sort_by_risk l) = length l.
Proof. by rewrite sort_by_risk_perm. Qed.

Lemma insert_by_risk_hd (p q : point) (l : list point) :
  risk_le q p → HdRel risk_le q l → HdRel risk_le q (insert_by_risk p l).
Proof.
  intros Hqp Hl. destruct l as [|r l]; cbn.
  - by constructor.
  - inversion_clear Hl. destruct (risk r <? risk p)%fl; by constructor.
Qed.

Lemma insert_by_risk_sorted (p : point) (l : list point) :
  risk p ≠ NaN → Forall (λ q, risk q ≠ NaN) l →
  Sorted risk_le l → Sorted risk_le (insert_by_risk p l).
Proof.
  intros Hp Hnan Hs. induction Hs as [|q l Hs IH Hhd]; cbn.
  - by repeat constructor.
  - inversion_clear Hnan as [|? ? Hq Hl].
    destruct (risk q <? risk p)%fl eqn:Hlt.
    + constructor; [by apply IH|].
      apply insert_by_risk_hd; [|done]. by apply fltb_fleb.
    + constructor; [by constructor|]. constructor.
      by apply not_fltb_fleb.
  Qed.

Lemma sort_by_risk_sorted (l : list point) :
  Forall (λ q, risk q ≠ NaN) l → Sorted risk_le (sort_by_risk l).
Proof.
  induction 1 as [|p l Hp Hl IH]; cbn; [constructor|].
  apply insert_by_risk_sorted; [done| |done].
  by rewrite sort_by_risk_perm.
Qed.

Lemma Sorted_adjacent (l : list point) (i : nat) (p q : point) :
  Sorted risk_le l → l !! i = Some p → l !! S i = Some q → risk_le p q.
Proof.
  intros Hs. revert i. induction Hs as [|r l Hs IH Hhd]; intros i Hp Hq; [done|].
  destruct i as [|i]; cbn in Hp, Hq.
  - injection Hp as ->. destruct l as [|r' l]; [done|].
    cbn in Hq. injection Hq as ->. by inversion_clear Hhd.
  - by eapply IH.
Qed.

(** ** The frontier sweep *)

Lemma np_linspace_length (start stop : float64) (num : Z) :
  (0 ≤ num)%Z →
  ∃ targets, np_linspace start stop num = Ok targets
             ∧ length targets = Z.to_nat num.
Proof.
  intros Hnum. unfold np_linspace.
  destruct (Z.ltb_spec num 0); [lia|].
  eexists. split; [reflexivity|].
  repeat case_match; by rewrite ?length_insert, !length_map, length_seq.
Qed.

Lemma np_linspace_negative (start stop : float64) (num : Z) :
  (num < 0)%Z → ∃ e, np_linspace start stop num = Raise e.
Proof.
  intros Hnum. unfold np_linspace.
  destruct (Z.ltb_spec num 0); [eauto|lia].
Qed.

Lemma filter_none {A} (f : A → bool) (l : list A) :
  (∀ a, f a = false) → List.filter f l = [].
Proof. intros Hf. induction l as [|a l IH]; [done|]. cbn. by rewrite Hf. Qed.

Section Frontier.

Variable risk_free_rate : float64.
Variable minimize : MinimizeArgs.t → result OptimizeResult.t.

Lemma frontier_point_of_converged (er : vector) (cov : matrix)
    (calls : list MinimizeArgs.t) :
  (length (flat_map (frontier_point_of risk_free_rate minimize er cov) calls)
   ≤ length (List.filter (converged minimize) calls))%nat.
Proof.
  induction calls as [|call calls IH]; [done|].
  cbn [flat_map List.filter]. rewrite length_app.
  unfold frontier_point_of at 1, converged at 1.
  destruct (minimize call) as [r|e]; [|cbn; lia].
  destruct (OptimizeResult.success r); [|cbn; lia].
  destruct (portfolio_performance _ _ _ _) as [[[? ?] ?]|?]; cbn; lia.
Qed.

Lemma frontier_point_spec (n : nat) (er : vector) (cov : matrix)
    (target : float64) (pts : list point) (log : solver_log) :
  n ≠ 0%nat →
  frontier_point risk_free_rate minimize n er cov target pts log
  = (Ok (pts ++ frontier_point_of risk_free_rate minimize er cov (frontier_call n er cov target))%list,
     (log ++ [frontier_call n er cov target])%list).
Proof.
  intros Hn. unfold frontier_point, frontier_point_of.
  rewrite (py_truediv_pos _ _ Hn). run_M. fold (frontier_call n er cov target).
  destruct (minimize _) as [r|e]; [|by rewrite app_nil_r].
  destruct (OptimizeResult.success r); [|by rewrite app_nil_r].
  destruct (portfolio_performance _ _ _ _) as [[[ret vol] sh]|e];
    [done|by rewrite app_nil_r].
Qed.

Lemma frontier_loop_spec (n : nat) (er : vector) (cov : matrix)
    (targets : vector) (pts : list point) (log : solver_log) :
  n ≠ 0%nat →
  frontier_loop risk_free_rate minimize n er cov targets pts log
  = (Ok (pts ++ flat_map (frontier_point_of risk_free_rate minimize er cov)
                  (map (frontier_call n er cov) targets))%list,
     (log ++ map (frontier_call n er cov) targets)%list).
Proof.
  intros Hn. revert pts log.
  induction targets as [|target rest IH]; intros pts log.
  - cbn. by rewrite !app_nil_r.
  - cbn [frontier_loop map flat_map]. unfold mbind, M_bind.
    rewrite frontier_point_spec, IH by done. by rewrite <- !app_assoc.
Qed.

(** What a run of the sweep returns, in terms of the target grid. *)
Lemma generate_efficient_frontier_spec (price_data : DataFrame)
    (n_points : Z) (log : solver_log) :
  let n := length (columns price_data) in
  let er := (calculate_returns_and_covariance price_data).1 in
  let cov := (calculate_returns_and_covariance price_data).2 in
  (columns price_data ≠ [] → (0 ≤ n_points)%Z →
   ∃ min_return max_return targets,
     np_min er = Ok min_return ∧ np_max er = Ok max_return
     ∧ np_linspace min_return max_return n_points = Ok targets
     ∧ length targets = Z.to_nat n_points
     ∧ generate_efficient_frontier risk_free_rate minimize price_data n_points log
       = (Ok (sort_by_risk (flat_map (frontier_point_of risk_free_rate minimize er cov)
                              (map (frontier_call n er cov) targets))),
          (log ++ map (frontier_call n er cov) targets)%list))
  ∧ (columns price_data = [] ∨ (n_points < 0)%Z →
     ∃ e, generate_efficient_frontier risk_free_rate minimize price_data
            n_points log = (Raise e, log)).
Proof.
  intros n er cov. subst n er cov.
  pose proof (expected_returns_length price_data) as Her.
  unfold generate_efficient_frontier.
  destruct (calculate_returns_and_covariance price_data) as [er cov].
  cbn [fst snd] in *. split.
  - intros Hcols Hnum.
    assert (length (columns price_data) ≠ 0%nat) as Hn
      by by destruct (columns price_data).
    destruct er as [|r er]; [done|]. unfold np_min, np_max.
    destruct (np_linspace_length (foldl fmin r er) (foldl fmax r er)
                n_points Hnum) as (targets & Hgrid & Hlen).
    exists (foldl fmin r er), (foldl fmax r er), targets.
    split_and!; [done..|].
    run_M. rewrite Hgrid. by rewrite frontier_loop_spec.
  - intros [Hcols | Hnum].
    + rewrite Hcols in Her. destruct er; [|done]. cbn. run_M. eauto.
    + destruct er as [|r er]; [cbn; run_M; eauto|]. unfold np_min, np_max.
      destruct (np_linspace_negative (foldl fmin r er) (foldl fmax r er)
                  n_points Hnum) as [e He].
      run_M. rewrite He. eauto.
Qed.

(** A solve that converged with a vector of the right shape adds its point;
    every other solve adds nothing. *)
Lemma frontier_point_of_cases (er : vector) (cov : matrix) (call : MinimizeArgs.t) :
  square (length er) cov →
  (∀ r, minimize call = Ok r → OptimizeResult.success r = true →
        length (OptimizeResult.x r) = length er →
        frontier_point_of risk_free_rate minimize er cov call
        = [{| risk := fsqrt (quadratic_form cov (OptimizeResult.x r));
              return_ := fsum (zip_with fmul (OptimizeResult.x r) er) |}])
  ∧ (converged minimize call = false →
     frontier_point_of risk_free_rate minimize er cov call = [])
  ∧ (∀ p, p ∈ frontier_point_of risk_free_rate minimize er cov call →
        ∃ r, minimize call = Ok r ∧ OptimizeResult.success r = true
             ∧ p = {| risk := fsqrt (quadratic_form cov (OptimizeResult.x r));
                      return_ := fsum (zip_with fmul (OptimizeResult.x r) er) |}).
Proof.
  intros Hcov. unfold frontier_point_of, converged. split_and!.
  - intros r -> -> Hlen.
    rewrite portfolio_performance_ok; [done|done|by rewrite Hlen].
  - destruct (minimize call) as [r|e]; [|done]. by intros ->.
  - intros p. destruct (minimize call) as [r|e]; [|by intros ?%elem_of_nil].
    destruct (OptimizeResult.success r) eqn:Hs; [|by intros ?%elem_of_nil].
    destruct (portfolio_performance _ _ _ _) as [[[ret vol] sh]|e] eqn:Hperf;
      [|by intros ?%elem_of_nil].
    intros ->%list_elem_of_singleton. exists r. split_and!; [done|done|].
    unfold portfolio_performance in Hperf.
    destruct (decide (length (OptimizeResult.x r) = length er)) as [Hlen|Hlen].
    + rewrite np_dot_ok in Hperf by done. cbn -[fsqrt fgtb fdiv fsub] in Hperf.
      destruct Hcov as [Hl Hrows].
      rewrite np_matvec_ok in Hperf by (by rewrite Hlen).
      cbn -[fsqrt fgtb fdiv fsub] in Hperf.
      rewrite np_dot_ok in Hperf by (by rewrite length_map, Hlen).
      cbn -[fsqrt fgtb fdiv fsub] in Hperf. by injection Hperf as <- <- _.
    + by rewrite np_dot_mismatch in Hperf.
Qed.

Lemma frontier_points_converged (n : nat) (er : vector) (cov : matrix)
    (targets : vector) :
  keeps_shape minimize → length er = n → square n cov →
  length (flat_map (frontier_point_of risk_free_rate minimize er cov)
            (map (frontier_call n er cov) targets))
  = length (List.filter (converged minimize)
              (map (frontier_call n er cov) targets)).
Proof.
  intros Hshape Her Hcov. rewrite <- Her in Hcov.
  induction targets as [|t targets IH]; [done|].
  cbn [map flat_map List.filter]. rewrite length_app, IH.
  destruct (frontier_point_of_cases er cov (frontier_call n er cov t) Hcov)
    as (Hone & Hnone & _).
  destruct (converged minimize (frontier_call n er cov t)) eqn:Hconv.
  - unfold converged in Hconv.
    destruct (minimize (frontier_call n er cov t)) as [r|e] eqn:Hmin; [|done].
    rewrite (Hone r eq_refl Hconv); [done|].
    rewrite (Hshape _ _ Hmin). cbn. by rewrite length_replicate.
  - by rewrite Hnone.
Qed.

(** C8: when the sweep can build its grid (a table with at least one asset
    column, a non-negative number of points) it makes one solve per grid
    element and returns normally whatever the solves do.  The points it
    returns are those of the solves that converged, one for one: a solve
    that raises or does not converge contributes no point and removes
    none, and every solve that converged with a vector of the right shape
    has its point in the result.  If no solve converges the sweep returns
    the empty sequence.  The sweep raises only when the grid cannot be
    built, and then before any solve. *)
Theorem frontier_survives_failures (price_data : DataFrame) (n_points : Z)
    (log : solver_log) :
  let er := (calculate_returns_and_covariance price_data).1 in
  let cov := (calculate_returns_and_covariance price_data).2 in
  (columns price_data ≠ [] ∧ (0 ≤ n_points)%Z →
   ∃ calls pts,
     generate_efficient_frontier risk_free_rate minimize price_data n_points log
       = (Ok pts, (log ++ calls)%list)
     ∧ length calls = Z.to_nat n_points
     ∧ pts ≡ₚ flat_map (frontier_point_of risk_free_rate minimize er cov) calls
     ∧ (∀ call r, call ∈ calls → minimize call = Ok r →
          OptimizeResult.success r = true →
          length (OptimizeResult.x r) = length (columns price_data) →
          {| risk := fsqrt (quadratic_form cov (OptimizeResult.x r));
             return_ := fsum (zip_with fmul (OptimizeResult.x r) er) |} ∈ pts)
     ∧ (∀ p, p ∈ pts →
          ∃ call r, call ∈ calls ∧ minimize call = Ok r
            ∧ OptimizeResult.success r = true
            ∧ p = {| risk := fsqrt (quadratic_form cov (OptimizeResult.x r));
                     return_ := fsum (zip_with fmul (OptimizeResult.x r) er) |})
     ∧ (length pts ≤ length (List.filter (converged minimize) calls))%nat
     ∧ (keeps_shape minimize →
        length pts = length (List.filter (converged minimize) calls))
     ∧ ((∀ args, converged minimize args = false) → pts = []))
  ∧ (columns price_data = [] ∨ (n_points < 0)%Z →
     ∃ e, generate_efficient_frontier risk_free_rate minimize price_data
            n_points log = (Raise e, log)).
Proof.
  intros er cov.
  destruct (generate_efficient_frontier_spec price_data n_points log)
    as [Hok Hraise].
  split; [|done]. intros [Hcols Hnum].
  destruct (Hok Hcols Hnum) as (mn & mx & targets & _ & _ & _ & Hlen & Hrun).
  fold er cov in Hrun.
  pose proof (expected_returns_length price_data) as Her. fold er in Her.
  pose proof (covariance_matrix_square price_data) as Hcov. fold cov in Hcov.
  rewrite <- Her in Hcov.
  set (calls := map (frontier_call (length (columns price_data)) er cov) targets) in *.
  pose proof (frontier_point_of_converged er cov calls) as Hle.
  exists calls, (sort_by_risk (flat_map (frontier_point_of risk_free_rate minimize er cov) calls)).
  split_and!.
  - exact Hrun.
  - subst calls. by rewrite length_map.
  - apply sort_by_risk_perm.
  - intros call r Hcall Hmin Hs Hx. rewrite sort_by_risk_perm.
    apply list_elem_of_In, in_flat_map. exists call. split; [by apply list_elem_of_In|].
    destruct (frontier_point_of_cases er cov call Hcov) as (Hone & _ & _).
    rewrite (Hone r Hmin Hs) by congruence. left. done.
  - intros p Hp. rewrite sort_by_risk_perm in Hp.
    apply list_elem_of_In, in_flat_map in Hp as (call & Hcall%list_elem_of_In & Hp%list_elem_of_In).
    destruct (frontier_point_of_cases er cov call Hcov) as (_ & _ & Hinv).
    destruct (Hinv p Hp) as (r & Hmin & Hs & ->). by exists call, r.
  - by rewrite sort_by_risk_length.
  - intros Hshape. rewrite sort_by_risk_length. subst calls.
    apply frontier_points_converged; [done|done|]. by rewrite <- Her.
  - intros Hfail. rewrite (filter_none (converged minimize) _ Hfail) in Hle.
    destruct (flat_map _ _); [done|cbn in Hle; lia].
Qed.

(** C10: on a table with at least one asset column and with n_points >= 1
    the target-return grid has n_points elements, the sweep makes one solve
    per element, and it returns at most one point per converged solve,
    hence at most n_points points. *)
Theorem frontier_length_bounded (price_data : DataFrame) (n_points : Z)
    (log : solver_log) :
  columns price_data ≠ [] → (1 ≤ n_points)%Z →
  ∃ min_return max_return targets calls pts,
    np_min (calculate_returns_and_covariance price_data).1 = Ok min_return
    ∧ np_max (calculate_returns_and_covariance price_data).1 = Ok max_return
    ∧ np_linspace min_return max_return n_points = Ok targets
    ∧ Z.of_nat (length targets) = n_points
    ∧ generate_efficient_frontier risk_free_rate minimize price_data n_points log
      = (Ok pts, (log ++ calls)%list)
    ∧ length calls = length targets
    ∧ (length pts ≤ length (List.filter (converged minimize) calls))%nat
    ∧ (Z.of_nat (length pts) ≤ n_points)%Z.
Proof.
  intros Hcols Hnum.
  destruct (generate_efficient_frontier_spec price_data n_points log)
    as [Hok _].
  destruct Hok as (mn & mx & targets & Hmin & Hmax & Hgrid & Hlen & Hrun);
    [done|lia|].
  exists mn, mx, targets. eexists _, _.
  split_and!; [done|done|done|lia|exact Hrun|by rewrite length_map| |].
  - rewrite sort_by_risk_length. apply frontier_point_of_converged.
  - rewrite sort_by_risk_length.
    etrans; [apply inj_le, frontier_point_of_converged|].
    etrans; [apply inj_le, List.filter_length_le|].
    rewrite length_map. lia.
Qed.

End Frontier.

(** ** Order of the frontier *)

Section FrontierOrder.

Variable risk_free_rate : float64.
Variable minimize : MinimizeArgs.t → result OptimizeResult.t.

(** C3 (as amended): the sequence the sweep returns is in ascending order
    of risk, [risk[i] <= risk[i+1]] for every i, provided no returned risk
    is NaN (a NaN compares false with everything, itself included). *)
Theorem frontier_sorted_by_risk (price_data : DataFrame) (n_points : Z)
    (log log' : solver_log) (pts : list point) :
  generate_efficient_frontier risk_free_rate minimize price_data n_points log
  = (Ok pts, log') →
  Forall (λ p, risk p ≠ NaN) pts →
  ascending_by_risk pts.
Proof.
  intros Hrun Hnan.
  destruct (generate_efficient_frontier_spec risk_free_rate minimize
              price_data n_points log) as [Hok Hraise].
  destruct (decide (columns price_data = [])) as [Hcols|Hcols].
  { destruct Hraise as [e He]; [by left|]. congruence. }
  destruct (Z.lt_ge_cases n_points 0) as [Hneg|Hnum].
  { destruct Hraise as [e He]; [by right|]. congruence. }
  destruct (Hok Hcols Hnum) as (mn & mx & targets & _ & _ & _ & _ & Hraw).
  rewrite Hraw in Hrun. injection Hrun as <- _.
  rewrite sort_by_risk_perm in Hnan.
  intros i p q Hp Hq.
  exact (Sorted_adjacent _ i p q (sort_by_risk_sorted _ Hnan) Hp Hq).
Qed.

End FrontierOrder.

(** ** What the evaluator returned *)

Lemma np_matvec_inv (m : matrix) (v cw : vector) :
  np_matvec m v = Ok cw → cw = map (λ row, fsum (zip_with fmul row v)) m.
Proof.
  revert cw. induction m as [|row m IH]; intros cw; cbn.
  - by intros [= <-].
  - unfold np_dot. destruct (decide (length row = length v)) as [Hlen|Hlen];
      [|done]. cbn.
    destruct (np_matvec m v) as [ds|?]; [|done]. cbn.
    intros [= <-]. by rewrite (IH ds).
Qed.

Lemma portfolio_performance_inv (risk_free_rate : float64)
    (weights expected_returns : vector) (covariance_matrix : matrix)
    (ret vol sharpe : float64) :
  portfolio_performance risk_free_rate weights expected_returns covariance_matrix
  = Ok (ret, vol, sharpe) →
  vol = fsqrt (quadratic_form covariance_matrix weights).
Proof.
  unfold portfolio_performance, quadratic_form.
  destruct (np_dot weights expected_returns) as [r|?]; [|done]. cbn.
  destruct (np_matvec covariance_matrix weights) as [cw|?] eqn:Hcw; [|done].
  apply np_matvec_inv in Hcw as ->. cbn. unfold np_dot.
  destruct (decide _) as [Hlen|Hlen]; [|done]. cbn. by intros [= _ <- _].
Qed.

(** The frontier of the solver that stays at the equal-weight guess. *)
Lemma frontier_at_guess (risk_free_rate : float64) (price_data : DataFrame)
    (targets : vector) :
  columns price_data ≠ [] →
  let n := length (columns price_data) in
  let er := (calculate_returns_and_covariance price_data).1 in
  let cov := (calculate_returns_and_covariance price_data).2 in
  length (flat_map (frontier_point_of risk_free_rate solver_at_guess er cov)
            (map (frontier_call n er cov) targets)) = length targets
  ∧ Forall (finite_result solver_at_guess) (map (frontier_call n er cov) targets).
Proof.
  intros Hcols n er cov.
  assert (n ≠ 0%nat) as Hn by (subst n; by destruct (columns price_data)).
  split.
  - induction targets as [|t targets IH]; [done|].
    cbn [map flat_map]. rewrite length_app, IH.
    unfold frontier_point_of, solver_at_guess.
    cbn [OptimizeResult.success OptimizeResult.x MinimizeArgs.x0 frontier_call].
    rewrite portfolio_performance_ok; [done| |].
    + subst er n. by rewrite expected_returns_length, length_replicate.
    + rewrite length_replicate. apply covariance_matrix_square.
  - apply Forall_map, Forall_forall. intros t _ r [= <-]. cbn.
    apply Forall_replicate. change (is_finite (1 / of_nat n)%fl).
    unfold of_nat. rewrite fdiv_finite; [done|]. by apply not_0_INR.
Qed.

(** ** Cleaning of the downloaded prices

    After the forward fill a column holds values from its first value on;
    this survives the removal of rows and columns, so the backward fill
    finds a value below every gap of a column that was kept. *)

Lemma valid_at_lt (j : nat) (row : vector) : valid_at j row → (j < length row)%nat.
Proof.
  unfold valid_at. intros H. destruct (decide (j < length row)%nat); [done|].
  rewrite nth_overflow in H by lia. done.
Qed.

Lemma le_valid_trans : Transitive le_valid.
Proof. intros a b c Hab Hbc j Hj. by apply Hbc, Hab. Qed.

Lemma fill_le_valid (row prev : vector) :
  length row = length prev →
  le_valid prev (zip_with (λ v p, if is_nan v then p else v) row prev).
Proof.
  intros Hlen j Hj. pose proof (valid_at_lt _ _ Hj) as Hlt. unfold valid_at in *.
  rewrite (nth_zip_with _ row prev j NaN NaN NaN) by lia.
  by destruct (is_nan (nth j row NaN)) eqn:Hrow.
Qed.

Lemma ffill_rows_length (n : nat) (prev : vector) (rows : matrix) :
  length prev = n → Forall (λ row, length row = n) rows →
  Forall (λ row, length row = n) (DataService.ffill_rows prev rows).
Proof.
  intros Hprev Hrows. revert prev Hprev.
  induction Hrows as [|row rows Hrow _ IH]; intros prev Hprev; cbn; constructor.
  - rewrite length_zip_with. lia.
  - apply IH. rewrite length_zip_with. lia.
Qed.

Lemma ffill_rows_sorted (n : nat) (prev : vector) (rows : matrix) :
  length prev = n → Forall (λ row, length row = n) rows →
  Sorted le_valid (prev :: DataService.ffill_rows prev rows).
Proof.
  intros Hprev Hrows. revert prev Hprev.
  induction Hrows as [|row rows Hrow _ IH]; intros prev Hprev; cbn.
  - repeat constructor.
  - constructor.
    + apply IH. rewrite length_zip_with. lia.
    + constructor. apply fill_le_valid. lia.
Qed.

Lemma ffill_rectangular (df : DataFrame) : rectangular df → rectangular (DataService.ffill df).
Proof.
  unfold rectangular, DataService.ffill. cbn. destruct (values df) as [|first rest]; [done|].
  intros Hrect. inversion_clear Hrect as [|? ? Hfirst Hrest]. constructor; [done|].
  by apply ffill_rows_length.
Qed.

Lemma ffill_sorted (df : DataFrame) :
  rectangular df → StronglySorted le_valid (values (DataService.ffill df)).
Proof.
  unfold rectangular, DataService.ffill. cbn. destruct (values df) as [|first rest]; [constructor|].
  intros Hrect. inversion_clear Hrect as [|? ? Hfirst Hrest].
  apply Sorted_StronglySorted; [exact le_valid_trans|]. by eapply ffill_rows_sorted.
Qed.

Lemma StronglySorted_filter {A} (R : relation A) (f : A → bool) (l : list A) :
  StronglySorted R l → StronglySorted R (List.filter f l).
Proof.
  induction 1 as [|a l Hl IH Ha]; cbn; [constructor|].
  destruct (f a); [|done]. constructor; [done|].
  rewrite Forall_forall in *. intros x Hx%list_elem_of_In%filter_In.
  apply Ha, list_elem_of_In, Hx.
Qed.

Lemma sorted_last (rows : matrix) (r l : vector) :
  StronglySorted le_valid rows → r ∈ rows → last rows = Some l → le_valid r l.
Proof.
  induction 1 as [|a rows Hrows IH Ha]; intros Hr Hl; [by apply elem_of_nil in Hr|].
  destruct rows as [|b rows].
  - apply list_elem_of_singleton in Hr as ->. cbn in Hl. injection Hl as ->. by intros j Hj.
  - change (last (a :: b :: rows)) with (last (b :: rows)) in Hl.
    apply elem_of_cons in Hr as [->|Hr]; [|by apply IH].
    rewrite Forall_forall in Ha. apply Ha.
    apply list_elem_of_lookup. exists (length rows).
    rewrite last_lookup in Hl. exact Hl.
Qed.

Lemma bfill_rows_length (rows : matrix) : length (DataService.bfill_rows rows) = length rows.
Proof.
  induction rows as [|row rows IH]; [done|]. cbn.
  destruct (DataService.bfill_rows rows) as [|next below]; cbn in *; lia.
Qed.

Lemma fill_no_missing (row other : vector) :
  Forall (λ v, is_nan v = false) other →
  Forall (λ v, is_nan v = false)
    (zip_with (λ v n, if is_nan v then n else v) row other).
Proof.
  intros Hother. revert row.
  induction Hother as [|n other Hn _ IH]; intros [|v row]; cbn; try constructor.
  - by destruct (is_nan v) eqn:Hv.
  - apply IH.
Qed.

Lemma bfill_rows_no_missing (rows : matrix) :
  (∀ l, last rows = Some l → Forall (λ v, is_nan v = false) l) →
  Forall (Forall (λ v, is_nan v = false)) (DataService.bfill_rows rows).
Proof.
  induction rows as [|row rows IH]; intros Hlast; [constructor|]. cbn.
  pose proof (bfill_rows_length rows) as Hlen.
  destruct rows as [|r rows].
  - cbn. constructor; [|constructor]. by apply Hlast.
  - specialize (IH Hlast).
    destruct (DataService.bfill_rows (r :: rows)) as [|next below]; [done|].
    inversion_clear IH as [|? ? Hnext Hbelow].
    constructor; [|by constructor]. by apply fill_no_missing.
Qed.

Lemma count_pos (j : nat) (rows : matrix) :
  (0 < DataService.count (column j rows))%nat → ∃ r, r ∈ rows ∧ valid_at j r.
Proof.
  unfold DataService.count, column, valid_at. induction rows as [|row rows IH]; cbn; [lia|].
  destruct (is_nan (nth j row NaN)) eqn:Hrow; cbn.
  - intros (r & Hr & Hv)%IH. exists r. split; [by right|done].
  - intros _. exists row. split; [by left|done].
Qed.

Lemma threshold_pos (len c : nat) :
  (0 < len)%nat → (of_nat len * Finite 0.5 <=? of_nat c)%fl = true → (0 < c)%nat.
Proof.
  intros Hlen. unfold of_nat. cbn. unfold Rleb.
  destruct (Rle_dec _ _) as [Hle|]; [|done]. intros _.
  destruct c as [|c]; [|lia]. cbn in Hle.
  apply lt_INR in Hlen. cbn in Hlen. lra.
Qed.

Lemma threshold_le (len c : nat) :
  (len ≤ c)%nat → (of_nat len * Finite 0.5 <=? of_nat c)%fl = true.
Proof.
  intros Hle. unfold of_nat. cbn. apply Rleb_true.
  apply le_INR in Hle. pose proof (pos_INR len). lra.
Qed.

Lemma last_map {A B} (f : A → B) (l : list A) : last (map f l) = f <$> last l.
Proof. induction l as [|a [|b l] IH]; try done. Qed.

Lemma clean_data_last_row (df : DataFrame) (l : vector) :
  rectangular df →
  last (values (DataService.dropna_thresh
                  (of_nat (length (values (DataService.dropna_all
                                             (DataService.ffill df))))
                   * Finite 0.5)%fl
                  (DataService.dropna_all (DataService.ffill df)))) = Some l →
  Forall (λ v, is_nan v = false) l.
Proof.
  intros Hrect. set (S := values (DataService.dropna_all (DataService.ffill df))).
  unfold DataService.dropna_thresh. cbn [values]. fold S. rewrite last_map.
  destruct (last S) as [s|] eqn:Hs; [|done]. cbn. intros [= <-].
  assert (StronglySorted le_valid S) as Hsorted
    by by apply StronglySorted_filter, ffill_sorted.
  assert (0 < length S)%nat as Hlen by (destruct S; [done|cbn; lia]).
  apply Forall_map, Forall_forall. intros j [_ Hj]%list_elem_of_In%filter_In.
  apply threshold_pos in Hj; [|done].
  apply count_pos in Hj as (r & Hr & Hv).
  by apply (sorted_last S r s).
Qed.

Lemma bfill_rows_lengths (n : nat) (rows : matrix) :
  Forall (λ row, length row = n) rows →
  Forall (λ row, length row = n) (DataService.bfill_rows rows).
Proof.
  induction 1 as [|row rows Hrow Hrows IH]; [constructor|]. cbn.
  destruct (DataService.bfill_rows rows) as [|next below]; [by repeat constructor|].
  inversion IH as [|? ? Hnext Hbelow]; subst.
  constructor; [|done]. rewrite length_zip_with. lia.
Qed.

Lemma select_sublist {A} (f : nat → bool) (l : list A) (d : A) :
  sublist (map (λ j, nth j l d) (List.filter f (seq 0 (length l)))) l.
Proof.
  assert (∀ (k : nat) (pre : list A), length pre = k →
            sublist (map (λ j, nth j (pre ++ l) d)
                       (List.filter f (seq k (length l)))) l) as H.
  { induction l as [|a l IH]; intros k pre Hpre; [done|]. cbn [length seq List.filter].
    assert (sublist (map (λ j, nth j (pre ++ a :: l) d)
                       (List.filter f (seq (S k) (length l)))) l) as Htail.
    { rewrite (cons_middle a pre l), app_assoc. apply IH.
      rewrite length_app. cbn. lia. }
    destruct (f k).
    - cbn [map]. rewrite app_nth2 by lia. rewrite Hpre, Nat.sub_diag. cbn.
      by apply sublist_skip.
    - by apply sublist_cons. }
  exact (H 0%nat [] eq_refl).
Qed.

Lemma clean_data_rows (df : DataFrame) :
  (length (values (DataService._clean_data df)) ≤ length (values df))%nat.
Proof.
  unfold DataService._clean_data, DataService.bfill, DataService.dropna_thresh,
    DataService.dropna_all. cbn [values].
  rewrite bfill_rows_length, length_map.
  etrans; [apply List.filter_length_le|].
  unfold DataService.ffill. cbn. destruct (values df) as [|first rest]; [done|].
  cbn. clear. revert first. induction rest as [|r rest IH]; intros first; [done|].
  cbn. specialize (IH (zip_with (λ v p, if is_nan v then p else v) r first)).
  cbn in IH. lia.
Qed.

Lemma clean_data_rectangular (df : DataFrame) : rectangular (DataService._clean_data df).
Proof.
  unfold rectangular, DataService._clean_data, DataService.bfill,
    DataService.dropna_thresh. cbn [values columns].
  apply bfill_rows_lengths, Forall_map, Forall_forall. intros row _.
  by rewrite !length_map.
Qed.

Lemma clean_data_filled (df : DataFrame) :
  rectangular df → no_missing (DataService._clean_data df).
Proof.
  intros Hrect. unfold no_missing, DataService._clean_data, DataService.bfill. cbn [values].
  apply bfill_rows_no_missing. intros l Hl.
  by apply (clean_data_last_row df l).
Qed.

Lemma fill_cells (P : float64 → Prop) (row other : vector) :
  Forall (λ v, is_nan v = true ∨ P v) row →
  Forall (λ v, is_nan v = true ∨ P v) other →
  Forall (λ v, is_nan v = true ∨ P v)
    (zip_with (λ v n, if is_nan v then n else v) row other).
Proof.
  intros Hrow. revert other.
  induction Hrow as [|v row Hv _ IH]; intros other Hother; [constructor|].
  destruct Hother as [|n other Hn Hother]; cbn; constructor.
  - destruct Hv as [Hv|Hv]; [by rewrite Hv|].
    destruct (is_nan v); [done|by right].
  - by apply IH.
Qed.

Lemma ffill_rows_cells (P : float64 → Prop) (prev : vector) (rows : matrix) :
  Forall (λ v, is_nan v = true ∨ P v) prev → cells P rows →
  cells P (DataService.ffill_rows prev rows).
Proof.
  intros Hprev Hrows. revert prev Hprev.
  induction Hrows as [|row rows Hrow _ IH]; intros prev Hprev; cbn; [constructor|].
  constructor; [by apply fill_cells|]. apply IH. by apply fill_cells.
Qed.

Lemma bfill_rows_cells (P : float64 → Prop) (rows : matrix) :
  cells P rows → cells P (DataService.bfill_rows rows).
Proof.
  induction 1 as [|row rows Hrow Hrows IH]; [constructor|]. cbn.
  destruct (DataService.bfill_rows rows) as [|next below]; [by repeat constructor|].
  inversion IH as [|? ? Hnext Hbelow]; subst.
  constructor; [|done]. by apply fill_cells.
Qed.

Lemma select_cells (P : float64 → Prop) (keep : list nat) (row : vector) :
  Forall (λ v, is_nan v = true ∨ P v) row →
  Forall (λ v, is_nan v = true ∨ P v) (map (λ j, nth j row NaN) keep).
Proof.
  intros Hrow. apply Forall_map, Forall_forall. intros j _. cbn beta.
  destruct (decide (j < length row)%nat) as [Hj|Hj].
  - rewrite Forall_forall in Hrow. apply Hrow, list_elem_of_In, nth_In, Hj.
  - rewrite nth_overflow by lia. by left.
Qed.

Lemma clean_data_cells (P : float64 → Prop) (df : DataFrame) :
  cells P (values df) → cells P (values (DataService._clean_data df)).
Proof.
  intros Hdf.
  unfold DataService._clean_data, DataService.bfill, DataService.dropna_thresh,
    DataService.dropna_all. cbn [values].
  apply bfill_rows_cells, Forall_map, Forall_forall.
  intros row Hrow%list_elem_of_In%filter_In%proj1%list_elem_of_In.
  apply select_cells. revert row Hrow. apply Forall_forall.
  unfold DataService.ffill. cbn. destruct Hdf as [|first rest Hfirst Hrest]; [constructor|].
  constructor; [done|]. by apply ffill_rows_cells.
Qed.

Lemma cells_no_missing (P : float64 → Prop) (rows : matrix) :
  cells P rows → Forall (Forall (λ v, is_nan v = false)) rows →
  Forall (Forall P) rows.
Proof.
  intros Hcells Hfilled. unfold cells in Hcells.
  rewrite Forall_forall in *. intros row Hrow.
  specialize (Hcells row Hrow). specialize (Hfilled row Hrow).
  rewrite Forall_forall in *. intros v Hv.
  destruct (Hcells v Hv) as [Hnan|HP]; [|done].
  specialize (Hfilled v Hv). congruence.
Qed.

Lemma fill_id (row other : vector) :
  Forall (λ v, is_nan v = false) row → (length row ≤ length other)%nat →
  zip_with (λ v n, if is_nan v then n else v) row other = row.
Proof.
  intros Hrow. revert other.
  induction Hrow as [|v row Hv _ IH]; intros [|n other] Hlen; cbn in *;
    [done|done|lia|].
  rewrite Hv, IH by lia. done.
Qed.

Lemma ffill_rows_id (n : nat) (prev : vector) (rows : matrix) :
  length prev = n → Forall (λ row, length row = n) rows →
  Forall (Forall (λ v, is_nan v = false)) rows →
  DataService.ffill_rows prev rows = rows.
Proof.
  intros Hprev Hlen. revert prev Hprev.
  induction Hlen as [|row rows Hrow _ IH]; intros prev Hprev Hfilled; [done|].
  inversion_clear Hfilled as [|? ? Hv Hrest]. cbn.
  rewrite fill_id by (done || lia). by rewrite IH.
Qed.

Lemma bfill_rows_id (n : nat) (rows : matrix) :
  Forall (λ row, length row = n) rows →
  Forall (Forall (λ v, is_nan v = false)) rows →
  DataService.bfill_rows rows = rows.
Proof.
  induction 1 as [|row rows Hrow Hrows IH]; intros Hfilled; [done|].
  inversion_clear Hfilled as [|? ? Hv Hrest]. cbn. rewrite IH by done.
  destruct Hrows as [|next below Hnext _]; [done|].
  rewrite fill_id by (done || lia). done.
Qed.

Lemma map_nth_seq {A} (l : list A) (d : A) :
  map (λ j, nth j l d) (seq 0 (length l)) = l.
Proof.
  induction l as [|a l IH]; [done|]. cbn [length seq map nth]. f_equal.
  rewrite <- seq_shift, map_map. exact IH.
Qed.

Lemma count_filled (j n : nat) (rows : matrix) :
  (j < n)%nat → Forall (λ row, length row = n) rows →
  Forall (Forall (λ v, is_nan v = false)) rows →
  DataService.count (column j rows) = length rows.
Proof.
  intros Hj Hlen Hfilled. unfold DataService.count, column.
  rewrite filter_all; [by rewrite length_map|].
  apply Forall_map, Forall_forall. intros row Hrow. cbn beta.
  rewrite Forall_forall in Hlen, Hfilled.
  specialize (Hlen row Hrow). specialize (Hfilled row Hrow).
  rewrite Forall_forall in Hfilled.
  rewrite (Hfilled (nth j row NaN)); [done|].
  apply list_elem_of_In, nth_In. lia.
Qed.

Lemma gap_free_unchanged (df : DataFrame) :
  rectangular df → no_missing df → values df = [] ∨ columns df ≠ [] →
  DataService._clean_data df = df.
Proof.
  destruct df as [cols rows]. unfold rectangular, no_missing. cbn [columns values].
  intros Hrect Hfilled Hshape.
  assert (DataService.ffill {| columns := cols; values := rows |}
          = {| columns := cols; values := rows |}) as Hffill.
  { unfold DataService.ffill. cbn [columns values]. f_equal.
    destruct Hrect as [|first rest Hfirst Hrest]; [done|].
    inversion_clear Hfilled as [|? ? _ Hv].
    f_equal. by apply (ffill_rows_id (length cols)). }
  assert (DataService.dropna_all {| columns := cols; values := rows |}
          = {| columns := cols; values := rows |}) as Hall.
  { unfold DataService.dropna_all. cbn [columns values]. f_equal. apply filter_all.
    rewrite Forall_forall in *. intros row Hrow.
    specialize (Hrect row Hrow). specialize (Hfilled row Hrow).
    destruct Hshape as [-> | Hcols]; [by apply elem_of_nil in Hrow|].
    destruct row as [|v row]; [by destruct cols|].
    inversion_clear Hfilled as [|? ? Hv _]. cbn. by rewrite Hv. }
  unfold DataService._clean_data. rewrite Hffill, Hall. cbn [values].
  unfold DataService.dropna_thresh, DataService.bfill. cbn [columns values].
  rewrite filter_all.
  - rewrite map_nth_seq. f_equal.
    replace (map (λ row, map (λ j, nth j row NaN) (seq 0 (length cols))) rows)
      with rows; [by apply (bfill_rows_id (length cols))|].
    rewrite <- (map_id rows) at 1. apply map_ext_in.
    intros row Hrow%list_elem_of_In. rewrite Forall_forall in Hrect.
    rewrite <- (Hrect row Hrow). symmetry. apply map_nth_seq.
  - apply Forall_forall. intros j Hj%list_elem_of_In%in_seq.
    apply threshold_le. rewrite (count_filled j (length cols)); [done|lia|done|done].
Qed.

Lemma count_all_valid (j : nat) (rows : matrix) :
  Forall (valid_at j) rows → DataService.count (column j rows) = length rows.
Proof.
  intros Hrows. unfold DataService.count, column. rewrite filter_all; [by rewrite length_map|].
  apply Forall_map. eapply Forall_impl; [exact Hrows|].
  intros row Hrow. cbn beta. unfold valid_at in Hrow. by rewrite Hrow.
Qed.

Lemma has_value_valid_at (row : vector) :
  existsb (λ v, negb (is_nan v)) row = true ↔ ∃ j, valid_at j row.
Proof.
  rewrite existsb_exists. split.
  - intros (v & Hin & Hv). destruct (In_nth row v NaN Hin) as (j & Hj & Hnth).
    exists j. unfold valid_at. rewrite Hnth. by destruct (is_nan v).
  - intros (j & Hj). exists (nth j row NaN). split.
    + apply nth_In. by apply valid_at_lt.
    + unfold valid_at in Hj. by rewrite Hj.
Qed.

Lemma dropna_all_rectangular (df : DataFrame) :
  rectangular df → rectangular (DataService.dropna_all df).
Proof.
  unfold rectangular, DataService.dropna_all. cbn. intros Hrect.
  rewrite Forall_forall in *. intros row Hrow%list_elem_of_In%filter_In%proj1.
  by apply Hrect, list_elem_of_In.
Qed.

Lemma clean_data_keeps_column (df : DataFrame) :
  rectangular df → values (DataService._clean_data df) ≠ [] →
  columns (DataService._clean_data df) ≠ [].
Proof.
  intros Hrect.
  unfold DataService._clean_data, DataService.bfill, DataService.dropna_thresh.
  cbn [values columns].
  pose proof (dropna_all_rectangular _ (ffill_rectangular _ Hrect)) as HrectS.
  assert (StronglySorted le_valid
            (values (DataService.dropna_all (DataService.ffill df)))) as Hsorted
    by by apply StronglySorted_filter, ffill_sorted.
  assert (Forall (λ row, existsb (λ v, negb (is_nan v)) row = true)
            (values (DataService.dropna_all (DataService.ffill df)))) as Hvalue.
  { apply Forall_forall. intros row Hrow%list_elem_of_In%filter_In. apply Hrow. }
  unfold rectangular in HrectS.
  change (columns (DataService.dropna_all (DataService.ffill df))) with (columns df) in *.
  destruct (values (DataService.dropna_all (DataService.ffill df))) as [|s0 S] eqn:HS; [done|].
  intros _.
  inversion_clear Hvalue as [|? ? Hs0 _].
  apply has_value_valid_at in Hs0 as [j0 Hj0].
  inversion_clear Hsorted as [|? ? _ Hle].
  inversion_clear HrectS as [|? ? Hlen _].
  assert (j0 ∈ List.filter
            (λ j, (of_nat (length (s0 :: S)) * Finite 0.5
                   <=? of_nat (DataService.count (column j (s0 :: S))))%fl)
            (seq 0 (length (columns df)))) as Hin.
  { apply list_elem_of_In, filter_In. split.
    - apply in_seq. apply valid_at_lt in Hj0. lia.
    - apply threshold_le. rewrite count_all_valid; [done|].
      constructor; [done|]. eapply Forall_impl; [exact Hle|].
      intros row Hrow. by apply Hrow. }
  destruct (List.filter _ _); [by apply elem_of_nil in Hin|done].
Qed.

Lemma ffill_rows_keeps (n : nat) (prev : vector) (rows : matrix) :
  length prev = n → Forall (λ row, length row = n) rows →
  Forall2 le_valid rows (DataService.ffill_rows prev rows).
Proof.
  intros Hprev Hrows. revert prev Hprev.
  induction Hrows as [|row rows Hrow _ IH]; intros prev Hprev; cbn; constructor.
  - intros j Hj. pose proof (valid_at_lt _ _ Hj) as Hlt. unfold valid_at in *.
    rewrite (nth_zip_with _ row prev j NaN NaN NaN) by lia. by rewrite Hj.
  - apply IH. rewrite length_zip_with. lia.
Qed.

Lemma ffill_keeps (df : DataFrame) :
  rectangular df → Forall2 le_valid (values df) (values (DataService.ffill df)).
Proof.
  unfold rectangular, DataService.ffill. cbn. intros Hrect.
  destruct Hrect as [|first rest Hfirst Hrest]; constructor.
  - by intros j Hj.
  - by apply (ffill_rows_keeps (length (columns df))).
Qed.

Lemma all_missing_dropped (rows : matrix) :
  cells (λ _, False) rows →
  List.filter (existsb (λ v, negb (is_nan v))) rows = [].
Proof.
  induction 1 as [|row rows Hrow _ IH]; [done|]. cbn. rewrite IH.
  destruct (existsb _ row) eqn:Hex; [|done].
  apply existsb_exists in Hex as (v & Hin%list_elem_of_In & Hv).
  rewrite Forall_forall in Hrow. destruct (Hrow v Hin) as [Hnan|[]].
  by rewrite Hnan in Hv.
Qed.

Lemma clean_data_all_missing (df : DataFrame) :
  cells (λ _, False) (values df) → values (DataService._clean_data df) = [].
Proof.
  intros Hdf.
  unfold DataService._clean_data, DataService.bfill, DataService.dropna_thresh,
    DataService.dropna_all. cbn [values].
  rewrite all_missing_dropped; [done|].
  unfold DataService.ffill. cbn. destruct Hdf as [|first rest Hfirst Hrest]; [constructor|].
  constructor; [done|]. by apply ffill_rows_cells.
Qed.

Lemma clean_data_has_row (df : DataFrame) (row : vector) (j : nat) :
  rectangular df → row ∈ values df → valid_at j row →
  values (DataService._clean_data df) ≠ [].
Proof.
  intros Hrect Hrow Hj.
  apply list_elem_of_lookup in Hrow as [t Ht].
  destruct (Forall2_lookup_l _ _ _ _ _ (ffill_keeps df Hrect) Ht)
    as (filled & Hfilled & Hle).
  assert (filled ∈ values (DataService.dropna_all (DataService.ffill df))) as Hin.
  { unfold DataService.dropna_all. cbn. apply list_elem_of_In, filter_In. split.
    - by eapply list_elem_of_In, list_elem_of_lookup_2.
    - apply has_value_valid_at. exists j. by apply Hle. }
  unfold DataService._clean_data, DataService.bfill, DataService.dropna_thresh. cbn [values].
  intros Hnil%(f_equal length). rewrite bfill_rows_length, length_map in Hnil.
  destruct (values (DataService.dropna_all (DataService.ffill df)));
    [by apply elem_of_nil in Hin|done].
Qed.

Lemma gappy_cells : cells positive (values gappy).
Proof.
  repeat first [apply Forall_nil_2 | apply Forall_cons_2];
    first [by left | right; eexists; split; [reflexivity|lra]].
Qed.

Lemma gappy_rectangular : rectangular gappy.
Proof. repeat constructor. Qed.

(** The sample frame: the third column holds one value out of four and is
    dropped; the gaps of the other two are filled from above, the leading
    gap from below. *)
Example clean_data_gappy :
  DataService._clean_data gappy
  = {| columns := ["AAPL"; "MSFT"];
       values := [[Finite 100; Finite 50];
                  [Finite 100; Finite 50];
                  [Finite 100; Finite 52];
                  [Finite 102; Finite 53]] |}.
Proof.
  unfold DataService._clean_data, DataService.dropna_thresh, DataService.bfill,
    DataService.dropna_all, DataService.ffill, gappy, DataService.count, column.
  cbn -[Rleb]. rewrite !Rleb_true by lra. rewrite Rleb_false by lra. reflexivity.
Qed.

(** X1: on every frame whose rows have one cell per column,
    [_clean_data] returns a frame of the same kind without any missing
    cell; its columns are a subsequence of the columns it was given and it
    has at most as many rows. *)
Theorem clean_data_well_formed (data : DataFrame) :
  rectangular data →
  rectangular (DataService._clean_data data)
  ∧ no_missing (DataService._clean_data data)
  ∧ sublist (columns (DataService._clean_data data)) (columns data)
  ∧ (length (values (DataService._clean_data data)) ≤ length (values data))%nat.
Proof.
  intros Hrect. split_and!.
  - apply clean_data_rectangular.
  - by apply clean_data_filled.
  - unfold DataService._clean_data, DataService.bfill, DataService.dropna_thresh. cbn [columns].
    change (columns (DataService.dropna_all (DataService.ffill data))) with (columns data).
    apply select_sublist.
  - apply clean_data_rows.
Qed.

Lemma clean_data_well_formed_witness :
  rectangular (DataService._clean_data gappy)
  ∧ no_missing (DataService._clean_data gappy)
  ∧ sublist (columns (DataService._clean_data gappy)) (columns gappy)
  ∧ (length (values (DataService._clean_data gappy)) ≤ length (values gappy))%nat.
Proof. apply (clean_data_well_formed gappy). exact gappy_rectangular. Defined.

(** X2: when the prices present in the downloaded frame are positive,
    the cleaned frame is a price table as the statistics estimator expects
    it: every row holds one positive price per asset. *)
Theorem clean_data_fit_for_estimator (data : DataFrame) :
  rectangular data → cells positive (values data) → clean (DataService._clean_data data).
Proof.
  intros Hrect Hpos. split; [apply clean_data_rectangular|].
  apply (cells_no_missing positive).
  - by apply clean_data_cells.
  - by apply clean_data_filled.
Qed.

Lemma clean_data_fit_for_estimator_witness : clean (DataService._clean_data gappy).
Proof.
  apply (clean_data_fit_for_estimator gappy).
  - exact gappy_rectangular.
  - exact gappy_cells.
Defined.

(** X3: the cleaned frame is empty ([df.empty], the test the REST
    interface applies to it) exactly when the downloaded frame holds no
    price at all; as soon as one price is present, a row and a column
    survive the cleaning. *)
Theorem clean_data_empty_iff (data : DataFrame) :
  rectangular data →
  DataFrame_empty (DataService._clean_data data) = true ↔ all_missing data.
Proof.
  intros Hrect. unfold DataFrame_empty, all_missing. split.
  - intros Hempty. apply Forall_forall. intros row Hrow.
    apply Forall_forall. intros v Hv. destruct (is_nan v) eqn:Hnan; [done|].
    exfalso.
    apply list_elem_of_In in Hv. destruct (In_nth row v NaN Hv) as (j & _ & Hj).
    assert (valid_at j row) as Hvalid by (unfold valid_at; by rewrite Hj).
    pose proof (clean_data_has_row data row j Hrect Hrow Hvalid) as Hrows.
    pose proof (clean_data_keeps_column data Hrect Hrows) as Hcols.
    apply orb_true_iff in Hempty as [H%bool_decide_eq_true|H%bool_decide_eq_true];
      done.
  - intros Hall. apply orb_true_iff. right. apply bool_decide_eq_true.
    apply clean_data_all_missing.
    eapply Forall_impl; [exact Hall|]. intros row Hrow.
    eapply Forall_impl; [exact Hrow|]. intros v Hv. by left.
Qed.

Lemma clean_data_empty_iff_witness :
  DataFrame_empty (DataService._clean_data gappy) = true ↔ all_missing gappy.
Proof. apply (clean_data_empty_iff gappy). exact gappy_rectangular. Defined.

(** X4: a frame with at least one column and no missing cell passes
    through [_clean_data] unchanged: no row and no column is removed, no
    price is altered. *)
Theorem clean_data_gap_free (data : DataFrame) :
  rectangular data → no_missing data → columns data ≠ [] →
  DataService._clean_data data = data.
Proof. intros Hrect Hfilled Hcols. apply gap_free_unchanged; auto. Qed.

Lemma clean_data_gap_free_witness : DataService._clean_data three_days = three_days.
Proof.
  apply (clean_data_gap_free three_days).
  - repeat constructor.
  - repeat constructor.
  - discriminate.
Defined.

(** X5: cleaning a cleaned frame changes nothing. *)
Theorem clean_data_idempotent (data : DataFrame) :
  rectangular data →
  DataService._clean_data (DataService._clean_data data)
  = DataService._clean_data data.
Proof.
  intros Hrect. apply gap_free_unchanged.
  - apply clean_data_rectangular.
  - by apply clean_data_filled.
  - destruct (values (DataService._clean_data data)) as [|row rows] eqn:Hrows; [by left|].
    right. apply clean_data_keeps_column; [done|]. by rewrite Hrows.
Qed.

Lemma clean_data_idempotent_witness :
  DataService._clean_data (DataService._clean_data gappy) = DataService._clean_data gappy.
Proof. apply (clean_data_idempotent gappy). exact gappy_rectangular. Defined.

(** ** The REST interface

    What the handlers answer: a response, or an [HTTPException] with its
    status code. *)

Lemma individual_performance_returns (risk_free_rate : float64)
    (price_data : DataFrame) :
  ∃ perfs,
    get_individual_asset_performance risk_free_rate price_data = Ok perfs
    ∧ length perfs = length (columns price_data)
    ∧ map AssetPerformance.ticker perfs = columns price_data.
Proof.
  pose proof (expected_returns_length price_data) as Hl.
  pose proof (covariance_matrix_square price_data) as [Hn Hrows].
  unfold get_individual_asset_performance.
  destruct (calculate_returns_and_covariance price_data) as [er cov].
  cbn [fst snd] in *.
  destruct (asset_performance_loop_ok risk_free_rate (columns price_data) er cov 0)
    as (perfs & Hperfs & Hlen & Hall).
  - cbn. lia.
  - cbn. lia.
  - eapply Forall_impl; [exact Hrows|]. cbn. intros; lia.
  - exists perfs. split_and!; [done|done|].
    apply list_eq. intros k. rewrite list_lookup_fmap.
    destruct (perfs !! k) as [a|] eqn:Ha; cbn.
    + destruct (Hall k a Ha) as (_ & _ & _ & _ & Ht & _). by rewrite Ht.
    + symmetry. apply lookup_ge_None. apply lookup_ge_None in Ha. lia.
Qed.

Section EndpointProperties.


Variable derives_from_ValueError : string → bool.
Variable history : string → result DataFrame.
Variable fetch : list string → option string → option string → result DataFrame.
Variable repr : list string → string.
Variable minimize : MinimizeArgs.t → result OptimizeResult.t.

(** X6: the dependency [get_stock_data] answers with status 422 only when
    the price provider raised a [ValueError], whose text it passes on.  The
    two [HTTPException]s with status 422 that it raises itself (fewer than
    two valid tickers, an empty frame) are raised inside its own [try] and
    caught by its [except Exception] clause: the caller receives status 500
    with the text of that clause.  A frame that is returned is not empty,
    and no Python exception leaves the dependency. *)
Theorem stock_data_dependency_status (request : Api.OptimizationRequest.t) :
  let valid_tickers :=
    DataService.validate_tickers history (Api.OptimizationRequest.tickers request) in
  let fetched :=
    fetch valid_tickers (Api.OptimizationRequest.start_date request)
      (Api.OptimizationRequest.end_date request) in
  let answer := Api.get_stock_data derives_from_ValueError history fetch repr request in
  let internal_error :=
    Api.Raised (Api.HTTPException 500 "Internal server error while fetching data") in
  ((length valid_tickers < 2)%nat → answer = internal_error)
  ∧ (∀ stock_data, fetched = Ok stock_data → DataFrame_empty stock_data = true →
       answer = internal_error)
  ∧ (∀ detail, answer = Api.Raised (Api.HTTPException 422 detail) →
       (2 ≤ length valid_tickers)%nat
       ∧ ∃ e, fetched = Raise e ∧ derives_from_ValueError (exn_cls e) = true
              ∧ detail = exn_str e)
  ∧ (∀ stock_data, answer = Api.Returned stock_data →
       (2 ≤ length valid_tickers)%nat ∧ fetched = Ok stock_data
       ∧ DataFrame_empty stock_data = false)
  ∧ (∀ e, answer ≠ Api.Raised (Api.Python e)).
Proof.
  intros valid_tickers fetched answer internal_error.
  subst answer internal_error. unfold Api.get_stock_data.
  fold valid_tickers. fold fetched.
  destruct (Nat.ltb_spec (length valid_tickers) 2) as [Hlt|Hge].
  { cbn. split_and!; try done; try (intros; lia). }
  destruct fetched as [stock_data|e].
  - destruct (DataFrame_empty stock_data) eqn:Hempty; cbn.
    + split_and!; try done; try (intros; lia).
    + split_and!; try done; try (intros; lia).
      * intros df [= <-] Hdf. congruence.
      * intros df [= <-]. done.
  - cbn. destruct (derives_from_ValueError (exn_cls e)) eqn:Hcls.
    + split_and!; try done; try (intros; lia).
      intros detail [= <-]. split; [done|]. by exists e.
    + split_and!; try done; try (intros; lia).
Qed.


(** X8: on a table with at least one column [POST /frontier] makes 30
    calls to the numerical routine and never answers with status 422: the
    [HTTPException] with status 422 that it raises for an empty frontier is
    caught by its own [except Exception] clause, so an empty frontier is
    answered with status 500, and a frontier with a point is returned with
    one baseline record per column. *)
Theorem frontier_endpoint_status (request : Api.OptimizationRequest.t)
    (stock_data : DataFrame) (log : solver_log) :
  columns stock_data ≠ [] →
  let answer :=
    Api.generate_efficient_frontier derives_from_ValueError minimize request
      stock_data log in
  ∃ calls frontier_points,
    generate_efficient_frontier 0%fl minimize stock_data 30 log
    = (Ok frontier_points, (log ++ calls)%list)
    ∧ length calls = 30%nat
    ∧ answer.2 = (log ++ calls)%list
    ∧ (frontier_points = [] →
       answer.1 = Api.Raised (Api.HTTPException 500
                    "Internal server error during frontier generation"))
    ∧ (frontier_points ≠ [] →
       ∃ assets,
         answer.1 = Api.Returned
                      {| Api.FrontierResponse.points := frontier_points;
                         Api.FrontierResponse.individual_assets := Some assets |}
         ∧ map AssetPerformance.ticker assets = columns stock_data)
    ∧ (∀ detail, answer.1 ≠ Api.Raised (Api.HTTPException 422 detail)).
Proof.
  intros Hcols answer.
  destruct (generate_efficient_frontier_spec 0%fl minimize stock_data 30 log)
    as [Hok _].
  destruct (Hok Hcols) as (mn & mx & targets & _ & _ & _ & Hlen & Hrun); [lia|].
  destruct (individual_performance_returns 0%fl stock_data)
    as (assets & Hassets & _ & Htickers).
  eexists _, _. split; [exact Hrun|].
  subst answer. unfold Api.generate_efficient_frontier,
    Api.optimizer.generate_efficient_frontier,
    Api.optimizer.get_individual_asset_performance, Api.optimizer.risk_free_rate.
  rewrite Hrun, Hassets.
  destruct (sort_by_risk _) as [|p pts]; cbn.
  - split_and!; try done. by rewrite length_map, Hlen.
  - split_and!; try done; [by rewrite length_map, Hlen|].
    intros _. by exists assets.
Qed.

End EndpointProperties.

(** X9: the validator of the field [method] accepts exactly the modes the
    engine supports: a method passes it if and only if [optimize_portfolio]
    never rejects it as unknown on a table with at least one column. *)
Theorem validated_method_supported (method : string) :
  is_ok (Api.validate_method method) = true
  ↔ ∀ (risk_free_rate : float64)
      (minimize : MinimizeArgs.t → result OptimizeResult.t)
      (price_data : DataFrame) (log : solver_log),
      columns price_data ≠ [] →
      (optimize_portfolio risk_free_rate minimize price_data method log).1
      ≠ Raise (UnknownMethodError method).
Proof.
  unfold Api.validate_method. split.
  - destruct (bool_decide _) eqn:Hin; [|done]. intros _.
    apply bool_decide_eq_true in Hin.
    assert (method = "min_variance" ∨ method = "max_sharpe") as Hmode.
    { apply elem_of_cons in Hin as [?|Hin]; [by left|].
      apply list_elem_of_singleton in Hin. by right. }
    intros rf minimize price_data log Hcols.
    rewrite optimize_portfolio_run by done. cbn [fst].
    destruct (minimize _) as [r|cause]; [|done].
    by destruct (portfolio_performance _ _ _ _) as [[[? ?] ?]|?].
  - intros Hengine. destruct (bool_decide _) eqn:Hin; [done|]. exfalso.
    apply bool_decide_eq_false in Hin.
    apply (Hengine 0%fl solver_at_guess three_days []); [done|].
    unfold optimize_portfolio.
    destruct (calculate_returns_and_covariance three_days) as [er cov].
    rewrite py_truediv_pos by done.
    assert (String.eqb method "min_variance" = false) as ->.
    { apply String.eqb_neq. intros ->. apply Hin. left. }
    assert (String.eqb method "max_sharpe" = false) as ->.
    { apply String.eqb_neq. intros ->. apply Hin. right. left. }
    reflexivity.
Qed.

(** A solver that never converges leaves the frontier empty. *)
Lemma stalled_frontier (risk_free_rate : float64) (er : vector) (cov : matrix)
    (calls : list MinimizeArgs.t) :
  flat_map (frontier_point_of risk_free_rate solver_stalled er cov) calls = [].
Proof. induction calls as [|call calls IH]; [done|]. cbn. exact IH. Qed.


Lemma frontier_endpoint_status_witness :
  ∃ calls,
    Api.generate_efficient_frontier (String.eqb "ValueError") solver_stalled
      sample_request three_days []
    = (Api.Raised (Api.HTTPException 500
                     "Internal server error during frontier generation"),
       calls)
    ∧ length calls = 30%nat.
Proof.
  destruct (frontier_endpoint_status (String.eqb "ValueError") solver_stalled
              sample_request three_days [])
    as (calls & pts & Hrun & Hlen & Hlog & Hempty & _); [done|].
  destruct (generate_efficient_frontier_spec 0%fl solver_stalled three_days 30 [])
    as [Hok _].
  destruct Hok as (mn & mx & targets & _ & _ & _ & _ & Hrun'); [done|lia|].
  rewrite Hrun' in Hrun. injection Hrun as Hpts Hcalls.
  rewrite stalled_frontier in Hpts. cbn in Hpts.
  exists calls. split; [|done]. cbn [app] in Hlog.
  rewrite <- Hlog, <- Hempty by done. apply surjective_pairing.
Defined.

(** ** The initial guess *)

Lemma Rsum_replicate (n : nat) (c : R) : Rsum (replicate n c) = (INR n * c)%R.
Proof.
  induction n as [|n IH]; [cbn; lra|].
  rewrite S_INR. cbn [replicate Rsum foldr]. unfold Rsum in IH. rewrite IH. lra.
Qed.

Lemma replicate_Finite (n : nat) (c : R) :
  replicate n (Finite c) = map Finite (replicate n c).
Proof. induction n as [|n IH]; [done|]. cbn. by rewrite IH. Qed.

Lemma equal_weight (n : nat) :
  n ≠ 0%nat → (1 / of_nat n)%fl = Finite (1 / INR n).
Proof. intros Hn. unfold of_nat. apply fdiv_finite. by apply not_0_INR. Qed.

Lemma equal_weight_range (n : nat) : n ≠ 0%nat → (0 <= 1 / INR n <= 1)%R.
Proof.
  intros Hn. assert (1 <= INR n)%R as H1.
  { replace 1%R with (INR 1) by done. apply le_INR. lia. }
  split.
  - apply Rlt_le, Rdiv_lt_0_compat; lra.
  - apply (Rmult_le_reg_r (INR n)); [lra|]. field_simplify; lra.
Qed.

(** X10: on every table with at least one column the initial guess that
    [optimize_portfolio] hands to the numerical routine, equal weights
    1 / n, is a feasible point of the problem: every weight lies within its
    bounds [0, 1] and the weights meet the constraint [np.sum(x) - 1 = 0]
    within the tolerance. *)
Theorem initial_guess_feasible (risk_free_rate : float64)
    (price_data : DataFrame) (method : string) :
  columns price_data ≠ [] →
  let call := optimize_portfolio_call risk_free_rate price_data method in
  feasible call (MinimizeArgs.x0 call).
Proof.
  intros Hcols call. subst call. unfold optimize_portfolio_call.
  cbn [MinimizeArgs.x0 MinimizeArgs.bounds MinimizeArgs.constraints].
  set (n := length (columns price_data)).
  assert (n ≠ 0%nat) as Hn by (subst n; by destruct (columns price_data)).
  rewrite (equal_weight n Hn).
  pose proof (equal_weight_range n Hn) as Hrange.
  assert (fsum (replicate n (Finite (1 / INR n))) = 1%fl) as Hsum.
  { rewrite replicate_Finite, fsum_finite, Rsum_replicate. f_equal.
    field. by apply not_0_INR. }
  split.
  - apply Forall2_replicate. exists 0%R, 1%R, (1 / INR n)%R.
    split_and!; try done; unfold tolerance; lra.
  - constructor; [|constructor]. exists 0%R. cbn. rewrite Hsum. split.
    + cbn. do 2 f_equal. lra.
    + rewrite Rabs_R0. unfold tolerance. lra.
Qed.

Lemma initial_guess_feasible_witness :
  feasible (optimize_portfolio_call 0%fl three_days "min_variance")
    (MinimizeArgs.x0 (optimize_portfolio_call 0%fl three_days "min_variance")).
Proof.
  apply (initial_guess_feasible 0%fl three_days "min_variance"). discriminate.
Defined.

(** ** The risk and the Sharpe ratio of a result *)

Lemma expected_returns_finite (price_data : DataFrame) :
  clean price_data → (2 ≤ length (values price_data))%nat →
  ∃ rs, (calculate_returns_and_covariance price_data).1 = map Finite rs
        ∧ length rs = length (columns price_data).
Proof.
  intros Hclean Hrows.
  pose proof (expected_returns_length price_data) as Hlen.
  destruct (finite_vector (calculate_returns_and_covariance price_data).1)
    as [rs Hrs].
  - rewrite expected_returns_clean by (done || lia).
    unfold Spec.expected_returns. apply Forall_map, Forall_forall.
    intros j Hj%list_elem_of_In%in_seq. cbn beta.
    destruct (changes_finite price_data j Hclean) as (xs & -> & Hxs); [lia|].
    change Spec.mean with series_mean. rewrite series_mean_finite; [done|].
    destruct xs; [cbn in Hxs; lia|done].
  - exists rs. split; [done|]. rewrite Hrs, length_map in Hlen. done.
Qed.

Lemma portfolio_performance_inv_all (risk_free_rate : float64)
    (weights expected_returns : vector) (covariance_matrix : matrix)
    (ret vol sharpe : float64) :
  portfolio_performance risk_free_rate weights expected_returns covariance_matrix
  = Ok (ret, vol, sharpe) →
  length weights = length expected_returns
  ∧ ret = fsum (zip_with fmul weights expected_returns)
  ∧ vol = fsqrt (quadratic_form covariance_matrix weights)
  ∧ sharpe = guarded_sharpe risk_free_rate ret vol.
Proof.
  intros Hperf. pose proof (portfolio_performance_inv _ _ _ _ _ _ _ Hperf) as Hvol.
  unfold portfolio_performance in Hperf.
  destruct (decide (length weights = length expected_returns)) as [Hlen|Hlen].
  2:{ by rewrite np_dot_mismatch in Hperf. }
  rewrite np_dot_ok in Hperf by done. cbn -[fsqrt fgtb fdiv fsub] in Hperf.
  destruct (np_matvec covariance_matrix weights) as [cw|?];
    cbn -[fsqrt fgtb fdiv fsub] in Hperf; [|done].
  destruct (np_dot weights cw) as [variance|?];
    cbn -[fsqrt fgtb fdiv fsub] in Hperf; [|done].
  injection Hperf as <- Hv <-. split_and!; try done.
  unfold guarded_sharpe. by rewrite Hv.
Qed.

Lemma optimize_portfolio_inv_performance (risk_free_rate : float64)
    (minimize : MinimizeArgs.t → result OptimizeResult.t)
    (price_data : DataFrame) (method : string)
    (log log' : solver_log) (p : Portfolio.t) :
  optimize_portfolio risk_free_rate minimize price_data method log = (Ok p, log') →
  ∃ r,
    minimize (optimize_portfolio_call risk_free_rate price_data method) = Ok r
    ∧ portfolio_performance risk_free_rate (OptimizeResult.x r)
        (calculate_returns_and_covariance price_data).1
        (calculate_returns_and_covariance price_data).2
      = Ok (Portfolio.exp_return p, Portfolio.exp_risk p, Portfolio.sharpe p).
Proof.
  intros Hrun.
  destruct (decide (columns price_data = [])) as [Hcols|Hcols].
  { unfold optimize_portfolio in Hrun. rewrite Hcols in Hrun.
    destruct (calculate_returns_and_covariance price_data). done. }
  destruct (String.eqb_spec method "min_variance") as [Hmv|Hmv];
    [|destruct (String.eqb_spec method "max_sharpe") as [Hms|Hms]].
  3:{ unfold optimize_portfolio in Hrun.
      destruct (calculate_returns_and_covariance price_data).
      rewrite py_truediv_pos in Hrun by by destruct (columns price_data).
      apply String.eqb_neq in Hmv, Hms. rewrite Hmv, Hms in Hrun. done. }
  all: rewrite optimize_portfolio_run in Hrun by auto.
  all: destruct (minimize _) as [r|cause] eqn:Hmin; [|done].
  all: destruct (portfolio_performance _ _ _ _) as [[[? ?] ?]|?] eqn:Hperf; [|done].
  all: injection Hrun as <- _; by exists r.
Qed.

Lemma fsqrt_not_negative (x : float64) : (fsqrt x <? 0)%fl = false.
Proof.
  destruct x as [r| | |]; cbn; try done.
  destruct (Rsign r); cbn; try done; apply Rltb_false, sqrt_pos.
Qed.

(** X11: the figures of a result belong to its weights.  Whenever
    [optimize_portfolio] returns, converged or not, the weights of the
    result are the vector the numerical routine returned, and the expected
    return and the risk are the evaluator's values at that vector; the risk
    is never negative (it is a square root: a number that is not negative,
    or NaN), and the Sharpe ratio is (return - risk_free_rate) / risk of
    the reported return and risk when the reported risk is positive, and
    exactly 0 otherwise, that is for a zero and for a NaN risk. *)
Theorem reported_risk_and_sharpe (risk_free_rate : float64)
    (minimize : MinimizeArgs.t → result OptimizeResult.t)
    (price_data : DataFrame) (method : string)
    (log log' : solver_log) (p : Portfolio.t) :
  optimize_portfolio risk_free_rate minimize price_data method log = (Ok p, log') →
  ∃ r,
    minimize (optimize_portfolio_call risk_free_rate price_data method) = Ok r
    ∧ Portfolio.weights p = dict_of (zip (columns price_data) (OptimizeResult.x r))
    ∧ Portfolio.exp_return p
      = fsum (zip_with fmul (OptimizeResult.x r)
                (calculate_returns_and_covariance price_data).1)
    ∧ Portfolio.exp_risk p
      = fsqrt (quadratic_form (calculate_returns_and_covariance price_data).2
                 (OptimizeResult.x r))
    ∧ (Portfolio.exp_risk p <? 0)%fl = false
    ∧ Portfolio.sharpe p
      = guarded_sharpe risk_free_rate (Portfolio.exp_return p)
          (Portfolio.exp_risk p)
    ∧ ((Portfolio.exp_risk p >? 0)%fl = false → Portfolio.sharpe p = 0%fl).
Proof.
  intros Hrun.
  destruct (optimize_portfolio_inv _ _ _ _ _ _ _ Hrun) as (r' & Hmin' & Hweights & _).
  apply optimize_portfolio_inv_performance in Hrun as (r & Hmin & Hperf).
  rewrite Hmin in Hmin'. injection Hmin' as <-.
  apply portfolio_performance_inv_all in Hperf as (Hlen & Hret & Hvol & Hsharpe).
  exists r. split_and!; try done.
  - rewrite Hvol. apply fsqrt_not_negative.
  - intros Hrisk. rewrite Hsharpe. by apply guarded_sharpe_zero_risk.
Qed.

Lemma reported_risk_and_sharpe_witness :
  ∃ p log',
    optimize_portfolio 0%fl solver_at_guess three_days "min_variance" []
    = (Ok p, log')
    ∧ (Portfolio.exp_risk p <? 0)%fl = false
    ∧ Portfolio.sharpe p
      = guarded_sharpe 0%fl (Portfolio.exp_return p) (Portfolio.exp_risk p).
Proof.
  destruct (solver_at_guess_run 0%fl three_days "min_variance" [])
    as (p & Hrun & _); [done|by left|].
  destruct (reported_risk_and_sharpe 0%fl solver_at_guess three_days
              "min_variance" []
              ([] ++ [optimize_portfolio_call 0%fl three_days "min_variance"])%list
              p Hrun) as (r & _ & _ & _ & _ & Hrisk & Hsharpe & _).
  by eexists p, _.
Defined.

(** ** Portfolios of a single asset *)


Lemma unit_vector_length (n k : nat) : length (unit_vector n k) = n.
Proof. unfold unit_vector. by rewrite length_insert, length_replicate. Qed.

Lemma Rdot_replicate_zero (n : nat) (v : list R) : Rdot (replicate n 0%R) v = 0%R.
Proof.
  unfold Rdot, Rsum. revert v.
  induction n as [|n IH]; intros [|y v]; cbn; try done.
  rewrite IH. lra.
Qed.

Lemma Rdot_cons (a b : R) (l m : list R) :
  Rdot (a :: l) (b :: m) = (a * b + Rdot l m)%R.
Proof. reflexivity. Qed.

Lemma Rdot_unit_vector (n k : nat) (v : list R) :
  (k < n)%nat → Rdot (unit_vector n k) v = nth k v 0%R.
Proof.
  unfold unit_vector. revert k v.
  induction n as [|n IH]; intros k v Hk; [lia|].
  destruct v as [|y v].
  { unfold Rdot. by destruct k as [|[|k]]. }
  destruct k as [|k].
  - change (Rdot (1%R :: replicate n 0%R) (y :: v) = y).
    rewrite Rdot_cons, Rdot_replicate_zero. lra.
  - change (Rdot (0%R :: <[k:=1%R]> (replicate n 0%R)) (y :: v) = nth k v 0%R).
    rewrite Rdot_cons, IH by lia. lra.
Qed.







(** ** The problems of the sweep are feasible *)

(** *** The range of the expected returns *)

Lemma fmin_finite (a b : R) :
  fmin (Finite a) (Finite b) = Finite (if Rlt_dec b a then b else a).
Proof. unfold fmin. cbn. unfold Rltb. by destruct (Rlt_dec b a). Qed.

Lemma fmax_finite (a b : R) :
  fmax (Finite a) (Finite b) = Finite (if Rlt_dec a b then b else a).
Proof. unfold fmax. cbn. unfold Rltb. by destruct (Rlt_dec a b). Qed.

Lemma foldl_fmin_finite (r : R) (rs : list R) :
  ∃ m, foldl fmin (Finite r) (map Finite rs) = Finite m
       ∧ m ∈ r :: rs ∧ Forall (λ x, (m <= x)%R) (r :: rs).
Proof.
  revert r. induction rs as [|a rs IH]; intros r.
  - exists r. cbn. split_and!; [done|left|]. constructor; [lra|constructor].
  - cbn [map foldl]. rewrite fmin_finite.
    destruct (IH (if Rlt_dec a r then a else r)) as (m & Hm & Hin & Hle).
    exists m. split; [done|].
    inversion_clear Hle as [|? ? Hhd Htl]. split.
    + apply elem_of_cons in Hin as [->|Hin].
      * destruct (Rlt_dec a r); [right; left|left].
      * right. by right.
    + revert Hhd. destruct (Rlt_dec a r) as [Har|Har]; intros Hhd;
        (constructor; [lra|constructor; [lra|done]]).
Qed.

Lemma foldl_fmax_finite (r : R) (rs : list R) :
  ∃ m, foldl fmax (Finite r) (map Finite rs) = Finite m
       ∧ m ∈ r :: rs ∧ Forall (λ x, (x <= m)%R) (r :: rs).
Proof.
  revert r. induction rs as [|a rs IH]; intros r.
  - exists r. cbn. split_and!; [done|left|]. constructor; [lra|constructor].
  - cbn [map foldl]. rewrite fmax_finite.
    destruct (IH (if Rlt_dec r a then a else r)) as (m & Hm & Hin & Hle).
    exists m. split; [done|].
    inversion_clear Hle as [|? ? Hhd Htl]. split.
    + apply elem_of_cons in Hin as [->|Hin].
      * destruct (Rlt_dec r a); [right; left|left].
      * right. by right.
    + revert Hhd. destruct (Rlt_dec r a) as [Har|Har]; intros Hhd;
        (constructor; [lra|constructor; [lra|done]]).
Qed.

(** *** The grid of target returns *)

Lemma fraction_range (q d : R) :
  (0 <= q <= 1)%R → (0 <= d)%R → (0 <= q * d <= d)%R.
Proof. intros Hq Hd. nra. Qed.

Lemma grid_fraction (k div : nat) :
  (k ≤ div)%nat → (0 < div)%nat → (0 <= INR k / INR div <= 1)%R.
Proof.
  intros Hk Hdiv. apply le_INR in Hk. apply lt_INR in Hdiv. cbn in Hdiv.
  pose proof (pos_INR k). split.
  - apply Rmult_le_pos; [done|]. apply Rlt_le. by apply Rinv_0_lt_compat.
  - apply (Rmult_le_reg_r (INR div)); [done|]. field_simplify; lra.
Qed.

Lemma insert_Finite (k : nat) (x : R) (l : list R) :
  <[k := Finite x]> (map Finite l) = map Finite (<[k := x]> l).
Proof.
  revert k. induction l as [|a l IH]; intros [|k]; cbn; try done.
  by rewrite IH.
Qed.

Lemma np_linspace_range (lo hi : R) (num : Z) :
  (lo <= hi)%R → (0 ≤ num)%Z →
  ∃ ts, np_linspace (Finite lo) (Finite hi) num = Ok (map Finite ts)
        ∧ length ts = Z.to_nat num
        ∧ Forall (λ t, (lo <= t <= hi)%R) ts.
Proof.
  intros Hle Hnum. unfold np_linspace.
  destruct (Z.ltb_spec num 0) as [?|_]; [lia|].
  set (n := Z.to_nat num). set (div := (n - 1)%nat).
  assert (∃ ts0, (map (λ v, (v + Finite lo)%fl)
                    (if (0 <? div)%nat
                     then
                       if feqb ((Finite hi - Finite lo) / of_nat div)%fl 0%fl
                       then map (λ v, (v / of_nat div * (Finite hi - Finite lo))%fl)
                              (map of_nat (seq 0 n))
                       else map (λ v, (v * ((Finite hi - Finite lo) / of_nat div))%fl)
                              (map of_nat (seq 0 n))
                     else map (λ v, (v * (Finite hi - Finite lo))%fl)
                            (map of_nat (seq 0 n)))) = map Finite ts0
                 ∧ length ts0 = n ∧ Forall (λ t, (lo <= t <= hi)%R) ts0)
    as (ts0 & Hts0 & Hlen & Hrange).
  { destruct (Nat.ltb_spec 0 div) as [Hdiv|Hdiv].
    - assert (INR div ≠ 0%R) as Hne by (apply not_0_INR; lia).
      unfold of_nat at 1. cbn [fsub fopp fadd]. rewrite fdiv_finite by done.
      destruct (feqb _ _).
      + exists (map (λ k, (INR k / INR div * (hi + - lo) + lo)%R) (seq 0 n)).
        split_and!.
        * rewrite !map_map. apply map_ext. intros k. unfold of_nat.
          by rewrite fdiv_finite by done.
        * by rewrite length_map, length_seq.
        * apply Forall_map, Forall_forall. intros k Hk%list_elem_of_In%in_seq.
          cbn beta.
          pose proof (grid_fraction k div ltac:(lia) Hdiv) as Hq.
          pose proof (fraction_range _ (hi + - lo) Hq ltac:(lra)). lra.
      + exists (map (λ k, (INR k * ((hi + - lo) / INR div) + lo)%R) (seq 0 n)).
        split_and!.
        * rewrite !map_map. apply map_ext. intros k. unfold of_nat.
          by rewrite fdiv_finite by done.
        * by rewrite length_map, length_seq.
        * apply Forall_map, Forall_forall. intros k Hk%list_elem_of_In%in_seq.
          cbn beta.
          pose proof (grid_fraction k div ltac:(lia) Hdiv) as Hq.
          pose proof (fraction_range _ (hi + - lo) Hq ltac:(lra)).
          replace (INR k * ((hi + - lo) / INR div))%R
            with (INR k / INR div * (hi + - lo))%R by (field; done).
          lra.
    - exists (map (λ k, (INR k * (hi + - lo) + lo)%R) (seq 0 n)).
      split_and!.
      + rewrite !map_map. apply map_ext. intros k. by unfold of_nat.
      + by rewrite length_map, length_seq.
      + assert (n = 0 ∨ n = 1)%nat as [-> | ->] by lia; cbn.
        * constructor.
        * constructor; [lra|constructor]. }
  rewrite Hts0. destruct (Nat.ltb_spec 1 n) as [Hn|Hn].
  - exists (<[(n - 1)%nat := hi]> ts0). rewrite insert_Finite.
    split_and!; [done|by rewrite length_insert|].
    apply Forall_insert; [done|lra].
  - by exists ts0.
Qed.

(** *** A portfolio that meets a target return *)

Lemma two_assets_length (n i j : nat) (s : R) : length (two_assets n i j s) = n.
Proof.
  unfold two_assets. rewrite length_zip_with, !length_map, !unit_vector_length. lia.
Qed.

Lemma two_assets_dot (n i j : nat) (s : R) (v : list R) :
  (i < n)%nat → (j < n)%nat →
  Rdot (two_assets n i j s) v = (s * nth i v 0 + (1 - s) * nth j v 0)%R.
Proof.
  intros Hi Hj. unfold two_assets.
  rewrite Rdot_plus by (by rewrite !length_map, !unit_vector_length).
  by rewrite !Rdot_scale, !Rdot_unit_vector.
Qed.

Lemma Rsum_dot_ones (l : list R) : Rsum l = Rdot l (replicate (length l) 1%R).
Proof.
  induction l as [|a l IH]; [done|].
  cbn [length replicate]. rewrite Rdot_cons, <- IH. unfold Rsum. cbn. lra.
Qed.

Lemma nth_replicate_lt {A} (n k : nat) (x d : A) :
  (k < n)%nat → nth k (replicate n x) d = x.
Proof. revert k. induction n as [|n IH]; intros [|k] Hk; cbn; try lia; [done|]. apply IH. lia. Qed.

Lemma two_assets_sum (n i j : nat) (s : R) :
  (i < n)%nat → (j < n)%nat → Rsum (two_assets n i j s) = 1%R.
Proof.
  intros Hi Hj. rewrite Rsum_dot_ones, two_assets_length, two_assets_dot by done.
  rewrite !nth_replicate_lt by done. lra.
Qed.

Lemma unit_vector_range (n k : nat) :
  Forall (λ v, (0 <= v <= 1)%R) (unit_vector n k).
Proof.
  unfold unit_vector. destruct (decide (k < n)%nat) as [Hk|Hk].
  - apply Forall_insert; [|lra]. apply Forall_replicate. lra.
  - rewrite list_insert_ge by (rewrite length_replicate; lia).
    apply Forall_replicate. lra.
Qed.

Lemma mix_range (s : R) (a b : list R) :
  (0 <= s <= 1)%R →
  Forall (λ v, (0 <= v <= 1)%R) a → Forall (λ v, (0 <= v <= 1)%R) b →
  Forall (λ v, (0 <= v <= 1)%R)
    (zip_with Rplus (map (Rmult s) a) (map (Rmult (1 - s)) b)).
Proof.
  intros Hs Ha. revert b. induction Ha as [|x a Hx _ IH]; intros b Hb; [constructor|].
  destruct Hb as [|y b Hy Hb]; cbn; constructor.
  - nra.
  - by apply IH.
Qed.

Lemma unit_bounds (x : list R) :
  Forall (λ v, (0 <= v <= 1)%R) x →
  Forall2 within_bounds (replicate (length x) (0%fl, 1%fl)) (map Finite x).
Proof.
  induction 1 as [|v x Hv _ IH]; cbn; constructor; [|done].
  exists 0%R, 1%R, v. split_and!; try done; unfold tolerance; lra.
Qed.

Lemma target_attained (n : nat) (rs : list R) (lo hi t : R)
    (cov : matrix) :
  length rs = n → lo ∈ rs → hi ∈ rs → (lo <= t <= hi)%R →
  ∃ x, feasible (frontier_call n (map Finite rs) cov (Finite t)) x.
Proof.
  intros Hn Hlo Hhi Ht.
  apply list_elem_of_lookup in Hlo as [i Hi]. apply list_elem_of_lookup in Hhi as [j Hj].
  pose proof (lookup_lt_Some _ _ _ Hi) as Hin. pose proof (lookup_lt_Some _ _ _ Hj) as Hjn.
  rewrite Hn in Hin, Hjn.
  apply (nth_lookup_Some _ _ 0%R) in Hi, Hj.
  set (s := if Rlt_dec lo hi then ((hi - t) / (hi - lo))%R else 1%R).
  assert (0 <= s <= 1)%R as Hs.
  { subst s. destruct (Rlt_dec lo hi) as [Hlt|Hlt]; [|lra]. split.
    - apply Rmult_le_pos; [lra|]. apply Rlt_le, Rinv_0_lt_compat. lra.
    - apply (Rmult_le_reg_r (hi - lo)); [lra|]. field_simplify; lra. }
  assert (s * lo + (1 - s) * hi = t)%R as Hmix.
  { subst s. destruct (Rlt_dec lo hi) as [Hlt|Hlt]; [field; lra|lra]. }
  exists (map Finite (two_assets n i j s)). split.
  - cbn [frontier_call MinimizeArgs.bounds].
    rewrite <- (two_assets_length n i j s) at 1. apply unit_bounds.
    apply mix_range; [done|apply unit_vector_range..].
  - cbn [frontier_call MinimizeArgs.constraints].
    constructor; [|constructor; [|constructor]].
    + exists 0%R. cbn. rewrite fsum_finite, two_assets_sum by done. split.
      * cbn. do 2 f_equal. lra.
      * rewrite Rabs_R0. unfold tolerance. lra.
    + exists 0%R. cbn [hits_target_return cfun].
      rewrite np_dot_ok by (by rewrite !length_map, two_assets_length).
      rewrite zip_with_fmul_finite, fsum_finite.
      fold (Rdot (two_assets n i j s) rs). rewrite two_assets_dot by done.
      rewrite Hi, Hj, Hmix. split.
      * cbn. do 2 f_equal. lra.
      * rewrite Rabs_R0. unfold tolerance. lra.
Qed.

(** X13: on a table of positive prices with at least 2 rows and one
    column, every problem the sweep hands to the numerical routine has a
    feasible point: the target returns lie between the smallest and the
    largest expected return, so for each of them some weights within [0, 1]
    sum to 1 and reach the target. *)
Theorem frontier_problems_feasible (risk_free_rate : float64)
    (minimize : MinimizeArgs.t → result OptimizeResult.t)
    (price_data : DataFrame) (n_points : Z) (log : solver_log) :
  clean price_data → (2 ≤ length (values price_data))%nat →
  columns price_data ≠ [] → (0 ≤ n_points)%Z →
  ∃ calls frontier_points,
    generate_efficient_frontier risk_free_rate minimize price_data n_points log
    = (Ok frontier_points, (log ++ calls)%list)
    ∧ length calls = Z.to_nat n_points
    ∧ Forall (λ call, ∃ x, feasible call x) calls.
Proof.
  intros Hclean Hrows Hcols Hnum.
  destruct (generate_efficient_frontier_spec risk_free_rate minimize price_data
              n_points log) as [Hok _].
  destruct (Hok Hcols Hnum) as (mn & mx & targets & Hmin & Hmax & Hgrid & Hlen & Hrun).
  destruct (expected_returns_finite price_data Hclean Hrows) as (rs & Hrs & Hlrs).
  eexists _, _. split; [exact Hrun|]. split; [by rewrite length_map|].
  rewrite Hrs in *. destruct rs as [|r rs]; [by destruct (columns price_data)|].
  cbn [map np_min np_max] in Hmin, Hmax.
  destruct (foldl_fmin_finite r rs) as (lo & Hlo & Hloin & Hlole).
  destruct (foldl_fmax_finite r rs) as (hi & Hhi & Hhiin & Hhile).
  rewrite Hlo in Hmin. rewrite Hhi in Hmax. injection Hmin as <-. injection Hmax as <-.
  assert (lo <= hi)%R as Hle.
  { rewrite Forall_forall in Hlole. by apply Hlole. }
  destruct (np_linspace_range lo hi n_points Hle Hnum) as (ts & Hts & _ & Hrange).
  rewrite Hts in Hgrid. injection Hgrid as <-.
  apply Forall_map, Forall_map.
  eapply Forall_impl; [exact Hrange|]. intros t Ht. cbn beta.
  change (Finite r :: map Finite rs) with (map Finite (r :: rs)).
  by apply (target_attained _ _ lo hi).
Qed.

Lemma frontier_problems_feasible_witness :
  ∃ calls frontier_points,
    generate_efficient_frontier 0%fl solver_stalled three_days 3 []
    = (Ok frontier_points, calls)
    ∧ length calls = 3%nat
    ∧ Forall (λ call, ∃ x, feasible call x) calls.
Proof.
  apply (frontier_problems_feasible 0%fl solver_stalled three_days 3 []).
  - exact three_days_clean.
  - cbn. lia.
  - discriminate.
  - lia.
Defined.

(** ** Prices in another unit *)

Lemma rescaled_change (c p k : float64) :
  positive c → positive p → positive k →
  (c * k / (p * k) - 1)%fl = (c / p - 1)%fl.
Proof.
  intros (a & -> & Ha) (b & -> & Hb) (f & -> & Hf). cbn [fmul].
  rewrite !fdiv_finite by nra. do 2 f_equal. field. lra.
Qed.

Lemma rescaled_changes (row prev factors : vector) :
  Forall positive row → Forall positive prev → Forall positive factors →
  zip_with (λ c p, (c / p - 1)%fl) (zip_with fmul row factors)
    (zip_with fmul prev factors)
  = zip_with (λ c p, (c / p - 1)%fl) (zip_with (λ c _, c) row factors) prev.
Proof.
  intros Hrow. revert prev factors.
  induction Hrow as [|c row Hc _ IH]; intros prev factors Hprev Hfactors; [done|].
  destruct Hfactors as [|k factors Hk Hfactors]; [done|].
  destruct Hprev as [|p prev Hp Hprev]; [done|].
  cbn. rewrite rescaled_change by done. f_equal. by apply IH.
Qed.

Lemma zip_with_fst {A B} (a : list A) (b : list B) :
  length a = length b → zip_with (λ x _, x) a b = a.
Proof.
  revert b. induction a as [|x a IH]; intros [|y b] Hlen; cbn in *; try done.
  f_equal. apply IH. lia.
Qed.

Lemma rescaled_pct_rows (n : nat) (prev : vector) (rows : matrix)
    (factors : vector) :
  length factors = n → Forall positive factors →
  length prev = n → Forall positive prev →
  Forall (λ row, length row = n) rows → Forall (Forall positive) rows →
  pct_rows (zip_with fmul prev factors)
    (map (λ row, zip_with fmul row factors) rows)
  = pct_rows prev rows.
Proof.
  intros Hlf Hf Hlprev Hprev Hlen. revert prev Hlprev Hprev.
  induction Hlen as [|row rows Hrow _ IH]; intros prev Hlprev Hprev Hpos; [done|].
  inversion_clear Hpos as [|? ? Hrowpos Hrest]. cbn [map pct_rows].
  rewrite rescaled_changes by done. rewrite zip_with_fst by lia.
  f_equal. by apply IH.
Qed.

(** X14: the statistics do not depend on the unit of the prices: when
    the prices of every asset of a table of positive prices are multiplied
    by a positive factor of the asset's own, the estimator returns the same
    expected returns and the same covariance matrix. *)
Theorem statistics_scale_invariant (price_data : DataFrame) (factors : vector) :
  clean price_data → Forall positive factors →
  length factors = length (columns price_data) →
  calculate_returns_and_covariance (rescale factors price_data)
  = calculate_returns_and_covariance price_data.
Proof.
  intros [Hrect Hpos] Hfactors Hlen.
  assert (pct_change (rescale factors price_data) = pct_change price_data) as Hpct.
  { unfold pct_change, rescale. cbn [columns values]. f_equal.
    unfold rectangular in Hrect.
    destruct (values price_data) as [|first rest]; [done|].
    inversion_clear Hrect as [|? ? Hfirst Hrest].
    inversion_clear Hpos as [|? ? Hfirstpos Hrestpos].
    cbn [map]. f_equal.
    - apply list_eq. intros i. rewrite !lookup_map.
      destruct (first !! i) as [v|] eqn:Hv.
      + destruct (lookup_lt_is_Some_2 (zip_with fmul first factors) i) as [w ->];
          [|done].
        rewrite length_zip_with. apply lookup_lt_Some in Hv. lia.
      + rewrite (proj2 (lookup_ge_None _ _)); [done|].
        rewrite length_zip_with. apply lookup_ge_None in Hv. lia.
    - by apply (rescaled_pct_rows (length (columns price_data))). }
  unfold calculate_returns_and_covariance. by rewrite Hpct.
Qed.

Lemma statistics_scale_invariant_witness :
  calculate_returns_and_covariance (rescale [Finite 2; Finite 3] three_days)
  = calculate_returns_and_covariance three_days.
Proof.
  apply (statistics_scale_invariant three_days [Finite 2; Finite 3]).
  - exact three_days_clean.
  - repeat constructor; eexists; (split; [reflexivity|lra]).
  - reflexivity.
Defined.

(** ** The cache file of a request *)

Lemma compare_trans (c : comparison) (s1 s2 s3 : string) :
  String.compare s1 s2 = c → String.compare s2 s3 = c → String.compare s1 s3 = c.
Proof.
  revert s2 s3. induction s1 as [|a s1 IH]; intros [|b s2] [|d s3]; cbn;
    try congruence.
  unfold Ascii.compare.
  destruct (N.compare_spec (Ascii.N_of_ascii a) (Ascii.N_of_ascii b)) as [Hab|Hab|Hab];
    destruct (N.compare_spec (Ascii.N_of_ascii b) (Ascii.N_of_ascii d)) as [Hbd|Hbd|Hbd];
    destruct (N.compare_spec (Ascii.N_of_ascii a) (Ascii.N_of_ascii d)) as [Had|Had|Had];
    try congruence; try lia.
  apply IH.
Qed.

Lemma str_le_trans : Transitive str_le.
Proof.
  intros s1 s2 s3. unfold str_le, String.leb.
  destruct (String.compare s1 s2) eqn:H12; [|  |done];
    destruct (String.compare s2 s3) eqn:H23; try done; intros _ _.
  - by rewrite (compare_trans Eq s1 s2 s3).
  - apply String.compare_eq_iff in H12 as ->. by rewrite H23.
  - apply String.compare_eq_iff in H23 as <-. by rewrite H12.
  - by rewrite (compare_trans Lt s1 s2 s3).
Qed.

Lemma str_le_antisym : AntiSymm (=) str_le.
Proof. intros s1 s2. apply String.leb_antisym. Qed.

Lemma str_le_total : Total str_le.
Proof. intros s1 s2. apply String.leb_total. Qed.

Lemma sorted_permutation (tickers other : list string) :
  tickers ≡ₚ other → sorted tickers = sorted other.
Proof.
  intros Hperm. unfold sorted.
  apply (Sorted_unique str_le (Transitive0 := str_le_trans) (AntiSymm0 := str_le_antisym)).
  - apply (Sorted_merge_sort str_le (Total0 := str_le_total)).
  - apply (Sorted_merge_sort str_le (Total0 := str_le_total)).
  - by rewrite !merge_sort_Permutation.
Qed.

(** X15: the name of the cache file of a request does not depend on the
    order in which the tickers are given. *)
Theorem cache_filename_order (tickers other : list string)
    (start_date end_date interval : string) :
  tickers ≡ₚ other →
  DataService.cache_filename tickers start_date end_date interval
  = DataService.cache_filename other start_date end_date interval.
Proof.
  intros Hperm. unfold DataService.cache_filename.
  by rewrite (sorted_permutation _ _ Hperm).
Qed.

Lemma cache_filename_order_witness :
  DataService.cache_filename ["MSFT"; "AAPL"] "2021-01-04" "2024-01-04" "1d"
  = DataService.cache_filename ["AAPL"; "MSFT"] "2021-01-04" "2024-01-04" "1d".
Proof.
  apply (cache_filename_order ["MSFT"; "AAPL"] ["AAPL"; "MSFT"]).
  apply Permutation_swap.
Defined.

Example cache_filename_sample :
  DataService.cache_filename ["MSFT"; "AAPL"] "2021-01-04" "2024-01-04" "1d"
  = "AAPL_MSFT_2021-01-04_2024-01-04_1d.csv".
Proof. vm_compute. reflexivity. Qed.

(** ** Runs of the sweep on the sample table

    The table [three_days] has the expected returns 126/5 and -63/5, so the
    grid of three target returns is -63/5, 63/10, 126/5.  With two assets
    the constraints of a frontier problem leave one portfolio. *)

Lemma three_days_range :
  np_min (calculate_returns_and_covariance three_days).1 = Ok (Finite (-63 / 5))
  ∧ np_max (calculate_returns_and_covariance three_days).1 = Ok (Finite (126 / 5)).
Proof.
  rewrite three_days_statistics. cbn [fst np_min np_max foldl].
  rewrite fmin_finite, fmax_finite.
  destruct (Rlt_dec (-63 / 5) (126 / 5)) as [_|H]; [|lra].
  destruct (Rlt_dec (126 / 5) (-63 / 5)) as [H|_]; [lra|]. done.
Qed.

Lemma three_days_grid :
  np_linspace (Finite (-63 / 5)) (Finite (126 / 5)) 3
  = Ok [Finite (-63 / 5); Finite (63 / 10); Finite (126 / 5)].
Proof.
  unfold np_linspace. change (Z.to_nat 3) with 3%nat.
  cbn -[fdiv feqb fmul fadd fsub].
  unfold of_nat. cbn [fsub fopp fadd INR].
  rewrite fdiv_finite by lra. unfold feqb.
  destruct (Req_dec_T _ _) as [H|_]; [lra|].
  cbn. repeat f_equal; lra.
Qed.

Lemma two_assets_solution (t : R) (cov : matrix) :
  solver_two_assets
    (frontier_call 2 [Finite (126 / 5); Finite (-63 / 5)] cov (Finite t))
  = Ok {| OptimizeResult.x :=
            [Finite ((t + 63 / 5) / (189 / 5)); Finite ((126 / 5 - t) / (189 / 5))];
          OptimizeResult.success := true;
          OptimizeResult.message := Some "Optimization terminated successfully" |}.
Proof.
  unfold solver_two_assets, frontier_call.
  cbn [MinimizeArgs.x0 replicate MinimizeArgs.constraints hits_target_return cfun].
  rewrite !np_dot_ok by done. cbn.
  destruct (Req_dec_T _ _) as [H|_]; [lra|].
  assert (∀ a a' b b' : R, a = a' → b = b' →
            [Finite a; Finite b] = [Finite a'; Finite b']) as Hx
    by (by intros a a' b b' -> ->).
  do 2 f_equal. apply Hx; field; lra.
Qed.

Lemma two_assets_point (t : R) :
  frontier_point_of 0%fl solver_two_assets
    [Finite (126 / 5); Finite (-63 / 5)]
    [[Finite 0; Finite 0]; [Finite 0; Finite (567 / 50)]]
    (frontier_call 2 [Finite (126 / 5); Finite (-63 / 5)]
       [[Finite 0; Finite 0]; [Finite 0; Finite (567 / 50)]] (Finite t))
  = [{| risk := Finite (sqrt (567 / 50 * (((126 / 5 - t) / (189 / 5))
                                          * ((126 / 5 - t) / (189 / 5)))));
        return_ := Finite t |}].
Proof.
  unfold frontier_point_of. rewrite two_assets_solution.
  cbn [OptimizeResult.success OptimizeResult.x].
  rewrite portfolio_performance_ok; [|done|by split; repeat constructor].
  unfold quadratic_form. cbn -[fsqrt].
  rewrite fsqrt_nonneg.
  - assert (∀ a a' b b' : R, a = a' → b = b' →
              [{| risk := Finite (sqrt a); return_ := Finite b |}]
              = [{| risk := Finite (sqrt a'); return_ := Finite b' |}]) as Hp
      by (by intros a a' b b' -> ->).
    apply Hp; field.
  - set (u := ((126 / 5 - t) / (189 / 5))%R).
    pose proof (Rle_0_sqr u) as Hu. unfold Rsqr in Hu. nra.
Qed.

(** The sweep with the two-asset solver: the three points come back in
    the reverse of the order of their targets. *)
Lemma two_assets_frontier :
  ∃ calls,
    generate_efficient_frontier 0%fl solver_two_assets three_days 3 []
    = (Ok [{| risk := Finite 0; return_ := Finite (126 / 5) |};
           {| risk := Finite (sqrt (567 / 200)); return_ := Finite (63 / 10) |};
           {| risk := Finite (sqrt (567 / 50)); return_ := Finite (-63 / 5) |}],
       calls)
    ∧ length calls = 3%nat.
Proof.
  destruct (generate_efficient_frontier_spec 0%fl solver_two_assets three_days 3 [])
    as [Hok _].
  destruct Hok as (mn & mx & targets & Hmin & Hmax & Hgrid & Hlen & Hrun);
    [done|lia|].
  destruct three_days_range as [Hmn Hmx].
  rewrite Hmn in Hmin. injection Hmin as <-.
  rewrite Hmx in Hmax. injection Hmax as <-.
  rewrite three_days_grid in Hgrid. injection Hgrid as <-.
  eexists. split; [rewrite Hrun; f_equal|done]. f_equal.
  rewrite three_days_statistics.
  cbn [fst snd map flat_map columns three_days length].
  rewrite !two_assets_point. cbn [app].
  replace (567 / 50 * ((126 / 5 - -63 / 5) / (189 / 5) * ((126 / 5 - -63 / 5) / (189 / 5))))%R
    with (567 / 50)%R by field.
  replace (567 / 50 * ((126 / 5 - 63 / 10) / (189 / 5) * ((126 / 5 - 63 / 10) / (189 / 5))))%R
    with (567 / 200)%R by field.
  replace (567 / 50 * ((126 / 5 - 126 / 5) / (189 / 5) * ((126 / 5 - 126 / 5) / (189 / 5))))%R
    with 0%R by field.
  assert (sqrt 0 < sqrt (567 / 200))%R as H1 by (apply sqrt_lt_1_alt; lra).
  assert (sqrt (567 / 200) < sqrt (567 / 50))%R as H2 by (apply sqrt_lt_1_alt; lra).
  unfold sort_by_risk. cbn [foldr insert_by_risk risk fltb].
  rewrite !Rltb_true by lra. cbn [insert_by_risk risk fltb].
  rewrite !Rltb_true by lra. cbn [insert_by_risk risk fltb].
  by rewrite sqrt_0.
Qed.

Lemma solver_two_assets_keeps_shape : keeps_shape solver_two_assets.
Proof.
  intros args r. unfold solver_two_assets.
  destruct (MinimizeArgs.x0 args) as [|a [|b [|c x0]]] eqn:Hx0; try done.
  destruct (MinimizeArgs.constraints args) as [|c1 [|c2 [|c3 cs]]]; try done.
  destruct (cfun c2 [1%fl; 0%fl]) as [[u| | |]|?]; try done.
  destruct (cfun c2 [0%fl; 1%fl]) as [[v| | |]|?]; try done.
  destruct (Req_dec_T u v).
  - intros [= <-]. cbn. by rewrite Hx0.
  - intros [= <-]. done.
Qed.

Lemma solver_flaky_keeps_shape : keeps_shape solver_flaky.
Proof.
  intros args r. unfold solver_flaky.
  destruct (MinimizeArgs.constraints args) as [|c1 [|c2 [|c3 cs]]]; try done.
  destruct (cfun c2 [0%fl; 0%fl]) as [[v| | |]|?]; try done.
  destruct (Rlt_dec 0 v); [done|]. destruct (Rlt_dec v (-10)).
  - intros [= <-]. done.
  - apply solver_two_assets_keeps_shape.
Qed.

Lemma flaky_cases (t : R) (cov : matrix) :
  let call := frontier_call 2 [Finite (126 / 5); Finite (-63 / 5)] cov (Finite t) in
  ((t < 0)%R → solver_flaky call = solver_raising call)
  ∧ ((10 < t)%R → solver_flaky call = solver_stalled call)
  ∧ ((0 <= t <= 10)%R → solver_flaky call = solver_two_assets call).
Proof.
  intros call. subst call. unfold solver_flaky, frontier_call.
  cbn [MinimizeArgs.constraints hits_target_return cfun].
  rewrite np_dot_ok by done. cbn.
  split_and!; intros Ht.
  - destruct (Rlt_dec _ _) as [_|H]; [done|lra].
  - destruct (Rlt_dec 0 _) as [H|_]; [lra|].
    destruct (Rlt_dec _ _) as [_|H]; [done|lra].
  - destruct (Rlt_dec 0 _) as [H|_]; [lra|].
    destruct (Rlt_dec _ _) as [H|_]; [lra|done].
Qed.

(** The sweep with the solver that fails on the first target and stalls
    on the last: the point of the second target is returned. *)
Lemma flaky_frontier :
  ∃ calls,
    generate_efficient_frontier 0%fl solver_flaky three_days 3 []
    = (Ok [{| risk := Finite (sqrt (567 / 200)); return_ := Finite (63 / 10) |}],
       calls)
    ∧ length calls = 3%nat.
Proof.
  destruct (generate_efficient_frontier_spec 0%fl solver_flaky three_days 3 [])
    as [Hok _].
  destruct Hok as (mn & mx & targets & Hmin & Hmax & Hgrid & Hlen & Hrun);
    [done|lia|].
  destruct three_days_range as [Hmn Hmx].
  rewrite Hmn in Hmin. injection Hmin as <-.
  rewrite Hmx in Hmax. injection Hmax as <-.
  rewrite three_days_grid in Hgrid. injection Hgrid as <-.
  eexists. split; [rewrite Hrun; f_equal|done]. f_equal.
  rewrite three_days_statistics.
  cbn [fst snd map flat_map columns three_days length].
  set (cov := [[Finite 0; Finite 0]; [Finite 0; Finite (567 / 50)]]).
  destruct (flaky_cases (-63 / 5) cov) as (Hraise & _ & _).
  destruct (flaky_cases (63 / 10) cov) as (_ & _ & Hsolve).
  destruct (flaky_cases (126 / 5) cov) as (_ & Hstall & _).
  pose proof (two_assets_point (63 / 10)) as Hpoint. fold cov in Hpoint.
  unfold frontier_point_of in Hpoint |- *.
  rewrite Hraise, Hstall, Hsolve by lra. rewrite Hpoint. cbn.
  do 4 f_equal. field.
Qed.

(** On the table with two rows every covariance is NaN, and so is every
    risk. *)
Lemma guess_points_two_days (targets : vector) :
  Forall (λ p, risk p = NaN)
    (flat_map (frontier_point_of 0%fl solver_at_guess
                 (calculate_returns_and_covariance two_days).1
                 (calculate_returns_and_covariance two_days).2)
       (map (frontier_call (length (columns two_days))
               (calculate_returns_and_covariance two_days).1
               (calculate_returns_and_covariance two_days).2) targets)).
Proof.
  rewrite two_days_statistics. cbn [fst snd columns two_days length].
  induction targets as [|t targets IH]; [constructor|].
  cbn [map flat_map]. apply Forall_app. split; [|exact IH].
  unfold frontier_point_of, solver_at_guess.
  cbn [OptimizeResult.success OptimizeResult.x MinimizeArgs.x0 frontier_call].
  rewrite portfolio_performance_ok; [|done|by split; repeat constructor].
  constructor; [|constructor]. cbn [risk replicate].
  rewrite equal_weight by done. reflexivity.
Qed.

(** On the table with two rows the sweep returns two points whose risks
    are NaN: the sequence is not in ascending order. *)
Lemma frontier_not_sorted_two_days :
  ∃ pts log',
    generate_efficient_frontier 0%fl solver_at_guess two_days 2 [] = (Ok pts, log')
    ∧ length pts = 2%nat
    ∧ ¬ ascending_by_risk pts.
Proof.
  destruct (generate_efficient_frontier_spec 0%fl solver_at_guess two_days 2 [])
    as [Hok _].
  destruct Hok as (mn & mx & targets & _ & _ & _ & Hlen & Hrun); [done|lia|].
  destruct (frontier_at_guess 0%fl two_days targets) as [Hpts _]; [done|].
  pose proof (guess_points_two_days targets) as Hnan.
  eexists _, _. split; [exact Hrun|].
  rewrite <- sort_by_risk_perm in Hnan. rewrite <- sort_by_risk_length in Hpts.
  destruct (sort_by_risk _) as [|a [|b [|c pts]]]; cbn in Hpts, Hlen;
    try (rewrite Hlen in Hpts; discriminate).
  split; [done|]. intros Hsorted.
  specialize (Hsorted 0%nat a b eq_refl eq_refl).
  inversion_clear Hnan as [|? ? Ha Hrest]. inversion_clear Hrest as [|? ? Hb _].
  rewrite Ha, Hb in Hsorted. discriminate.
Qed.

Lemma frontier_sorted_by_risk_witness :
  ∃ pts log',
    generate_efficient_frontier 0%fl solver_two_assets three_days 3 []
    = (Ok pts, log')
    ∧ map return_ pts = [Finite (126 / 5); Finite (63 / 10); Finite (-63 / 5)]
    ∧ ascending_by_risk pts.
Proof.
  destruct two_assets_frontier as (calls & Hrun & _).
  eexists _, _. split; [exact Hrun|]. split; [reflexivity|].
  apply (frontier_sorted_by_risk 0%fl solver_two_assets three_days 3 [] calls);
    [exact Hrun|].
  repeat constructor; discriminate.
Defined.

Lemma frontier_survives_failures_witness :
  ∃ calls pts,
    generate_efficient_frontier 0%fl solver_flaky three_days 3 []
    = (Ok pts, calls)
    ∧ length calls = 3%nat
    ∧ length (List.filter (converged solver_flaky) calls) = 1%nat
    ∧ pts = [{| risk := Finite (sqrt (567 / 200)); return_ := Finite (63 / 10) |}].
Proof.
  destruct (frontier_survives_failures 0%fl solver_flaky three_days 3 [])
    as [Hok _].
  destruct Hok as (calls & pts & Hrun & Hlen & _ & _ & _ & _ & Hcount & _);
    [split; [done|lia]|].
  destruct flaky_frontier as (calls' & Hrun' & _).
  cbn [app] in Hrun. rewrite Hrun' in Hrun. injection Hrun as <- <-.
  eexists _, _. split; [exact Hrun'|]. split; [exact Hlen|]. split; [|done].
  rewrite <- Hcount; [done|]. exact solver_flaky_keeps_shape.
Defined.

Lemma frontier_length_bounded_witness :
  ∃ pts calls,
    generate_efficient_frontier 0%fl solver_two_assets three_days 3 []
    = (Ok pts, calls)
    ∧ length pts = 3%nat
    ∧ (Z.of_nat (length pts) ≤ 3)%Z.
Proof.
  destruct (frontier_length_bounded 0%fl solver_two_assets three_days 3 [])
    as (mn & mx & targets & calls & pts & _ & _ & _ & _ & Hrun & _ & _ & Hle);
    [done|lia|].
  destruct two_assets_frontier as (calls' & Hrun' & _).
  cbn [app] in Hrun. rewrite Hrun' in Hrun. injection Hrun as <- <-.
  eexists _, _. split; [exact Hrun'|]. split; [reflexivity|exact Hle].
Defined.
